(** * Transaction core of the Prague fork

    A shallow embedding of [ethereum/prague/transactions.py]: the five
    transaction records, the typed-envelope codec, the intrinsic gas
    calculator, transaction validation, the signing hashes and sender
    recovery, followed by the properties the specification states about
    them.

    Conventions.  Python's [Uint], [U64] and [U256] are checked (never
    wrapping) integers; they are embedded as [Z], and the places where a
    checked operation could fail are discussed where they occur.  [Bytes]
    and all its fixed-width subclasses are [list byte].  Exceptions are
    values of [exception] carried by [result].  The collaborators that live
    outside the module (the RLP codec, keccak256, secp256k1 recovery, the
    EVM constants) are section variables: the theorems about the transaction
    core hold for any implementation of them.  The round trip through the
    codec is proved for the reference codec, written from the codec
    contract. *)

From Stdlib Require Import ZArith List String Bool Lia.
From Stdlib.Strings Require Import Byte.
From Stdlib Require Import Permutation.
Import ListNotations.
Local Open Scope Z_scope.
Set Warnings "-register-all".

(** ** Bytes and integers *)

Definition Bytes := list byte.

(** The integer a byte denotes: what [tx[0]] and iteration over a [bytes]
    object yield in Python. *)
Definition byte_val (b : byte) : Z := Z.of_N (Byte.to_N b).

(** [len] and [ulen] agree on sequences; both are kept for readability. *)
Definition len {A : Type} (l : list A) : Z := Z.of_nat (List.length l).
Definition ulen {A : Type} (l : list A) : Z := Z.of_nat (List.length l).

(** Equality of byte strings, as [==] on [bytes]. *)
Fixpoint Bytes_eqb (a b : Bytes) : bool :=
  match a, b with
  | [], [] => true
  | x :: a', y :: b' => Byte.eqb x y && Bytes_eqb a' b'
  | _, _ => false
  end.

(** [Bytes0(b"")]: the contract-creation sentinel in the [to] field. *)
Definition Bytes0 : Bytes := [].

Definition U64_MAX_VALUE : Z := 2 ^ 64 - 1.
Definition U256_MAX_VALUE : Z := 2 ^ 256 - 1.

(** ** Exceptions and results *)

Inductive exception : Type :=
| TransactionTypeError (transaction_type : Z)
| InvalidTransaction (reason : string)
| InvalidSignatureError (reason : string)
| IndexError
| ValueError
| DecodingError.

Inductive result (A : Type) : Type :=
| Ok (a : A)
| Raise (e : exception).
Arguments Ok {A} a.
Arguments Raise {A} e.

Definition result_map {A B : Type} (f : A -> B) (r : result A) : result B :=
  match r with
  | Ok a => Ok (f a)
  | Raise e => Raise e
  end.

(** ** Objects handed to the RLP encoder

    [rlp.encode] accepts byte strings, unsigned integers, sequences and
    dataclasses; a dataclass is encoded as the sequence of its fields in
    declaration order. *)

Inductive Extended : Type :=
| EBytes (b : Bytes)
| EUint (n : Z)
| ESeq (items : list Extended).

(** ** Records *)

Module Access.
Record t : Type := mk {
  account : Bytes;
  slots : list Bytes
}.
Definition to_extended (a : t) : Extended :=
  ESeq [EBytes (account a); ESeq (map EBytes (slots a))].
End Access.

(** Modelled from the spec: the [Authorization] record of [fork_types]
    (section 3.3: a chain id, a delegated address, a nonce and its own
    signature triple).  The transaction core only counts authorizations and
    passes them to the RLP codec. *)
Module Authorization.
Record t : Type := mk {
  chain_id : Z;
  address : Bytes;
  nonce : Z;
  y_parity : Z;
  r : Z;
  s : Z
}.
Definition to_extended (a : t) : Extended :=
  ESeq [EUint (chain_id a); EBytes (address a); EUint (nonce a);
        EUint (y_parity a); EUint (r a); EUint (s a)].
End Authorization.

Definition access_list_ext (l : list Access.t) : Extended :=
  ESeq (map Access.to_extended l).

Definition authorizations_ext (l : list Authorization.t) : Extended :=
  ESeq (map Authorization.to_extended l).

Module LegacyTransaction.
Record t : Type := mk {
  nonce : Z;
  gas_price : Z;
  gas : Z;
  to : Bytes;
  value : Z;
  data : Bytes;
  v : Z;
  r : Z;
  s : Z
}.
Definition to_extended (tx : t) : Extended :=
  ESeq [EUint (nonce tx); EUint (gas_price tx); EUint (gas tx);
        EBytes (to tx); EUint (value tx); EBytes (data tx);
        EUint (v tx); EUint (r tx); EUint (s tx)].
Definition set_data (tx : t) (d : Bytes) : t :=
  mk (nonce tx) (gas_price tx) (gas tx) (to tx) (value tx) d
     (v tx) (r tx) (s tx).
End LegacyTransaction.

Module AccessListTransaction.
Record t : Type := mk {
  chain_id : Z;
  nonce : Z;
  gas_price : Z;
  gas : Z;
  to : Bytes;
  value : Z;
  data : Bytes;
  access_list : list Access.t;
  y_parity : Z;
  r : Z;
  s : Z
}.
Definition to_extended (tx : t) : Extended :=
  ESeq [EUint (chain_id tx); EUint (nonce tx); EUint (gas_price tx);
        EUint (gas tx); EBytes (to tx); EUint (value tx);
        EBytes (data tx); access_list_ext (access_list tx);
        EUint (y_parity tx); EUint (r tx); EUint (s tx)].
Definition set_data (tx : t) (d : Bytes) : t :=
  mk (chain_id tx) (nonce tx) (gas_price tx) (gas tx) (to tx) (value tx)
     d (access_list tx) (y_parity tx) (r tx) (s tx).
Definition set_access_list (tx : t) (l : list Access.t) : t :=
  mk (chain_id tx) (nonce tx) (gas_price tx) (gas tx) (to tx) (value tx)
     (data tx) l (y_parity tx) (r tx) (s tx).
End AccessListTransaction.

Module FeeMarketTransaction.
Record t : Type := mk {
  chain_id : Z;
  nonce : Z;
  max_priority_fee_per_gas : Z;
  max_fee_per_gas : Z;
  gas : Z;
  to : Bytes;
  value : Z;
  data : Bytes;
  access_list : list Access.t;
  y_parity : Z;
  r : Z;
  s : Z
}.
Definition to_extended (tx : t) : Extended :=
  ESeq [EUint (chain_id tx); EUint (nonce tx);
        EUint (max_priority_fee_per_gas tx); EUint (max_fee_per_gas tx);
        EUint (gas tx); EBytes (to tx); EUint (value tx);
        EBytes (data tx); access_list_ext (access_list tx);
        EUint (y_parity tx); EUint (r tx); EUint (s tx)].
Definition set_data (tx : t) (d : Bytes) : t :=
  mk (chain_id tx) (nonce tx) (max_priority_fee_per_gas tx)
     (max_fee_per_gas tx) (gas tx) (to tx) (value tx) d (access_list tx)
     (y_parity tx) (r tx) (s tx).
End FeeMarketTransaction.

Module BlobTransaction.
Record t : Type := mk {
  chain_id : Z;
  nonce : Z;
  max_priority_fee_per_gas : Z;
  max_fee_per_gas : Z;
  gas : Z;
  to : Bytes;
  value : Z;
  data : Bytes;
  access_list : list Access.t;
  max_fee_per_blob_gas : Z;
  blob_versioned_hashes : list Bytes;
  y_parity : Z;
  r : Z;
  s : Z
}.
Definition to_extended (tx : t) : Extended :=
  ESeq [EUint (chain_id tx); EUint (nonce tx);
        EUint (max_priority_fee_per_gas tx); EUint (max_fee_per_gas tx);
        EUint (gas tx); EBytes (to tx); EUint (value tx);
        EBytes (data tx); access_list_ext (access_list tx);
        EUint (max_fee_per_blob_gas tx);
        ESeq (map EBytes (blob_versioned_hashes tx));
        EUint (y_parity tx); EUint (r tx); EUint (s tx)].
Definition set_data (tx : t) (d : Bytes) : t :=
  mk (chain_id tx) (nonce tx) (max_priority_fee_per_gas tx)
     (max_fee_per_gas tx) (gas tx) (to tx) (value tx) d (access_list tx)
     (max_fee_per_blob_gas tx) (blob_versioned_hashes tx)
     (y_parity tx) (r tx) (s tx).
End BlobTransaction.

Module SetCodeTransaction.
Record t : Type := mk {
  chain_id : Z;
  nonce : Z;
  max_priority_fee_per_gas : Z;
  max_fee_per_gas : Z;
  gas : Z;
  to : Bytes;
  value : Z;
  data : Bytes;
  access_list : list Access.t;
  authorizations : list Authorization.t;
  y_parity : Z;
  r : Z;
  s : Z
}.
Definition to_extended (tx : t) : Extended :=
  ESeq [EUint (chain_id tx); EUint (nonce tx);
        EUint (max_priority_fee_per_gas tx); EUint (max_fee_per_gas tx);
        EUint (gas tx); EBytes (to tx); EUint (value tx);
        EBytes (data tx); access_list_ext (access_list tx);
        authorizations_ext (authorizations tx);
        EUint (y_parity tx); EUint (r tx); EUint (s tx)].
Definition set_data (tx : t) (d : Bytes) : t :=
  mk (chain_id tx) (nonce tx) (max_priority_fee_per_gas tx)
     (max_fee_per_gas tx) (gas tx) (to tx) (value tx) d (access_list tx)
     (authorizations tx) (y_parity tx) (r tx) (s tx).
End SetCodeTransaction.

(** [Transaction = Union[...]]: dispatch is by [isinstance]. *)
Inductive Transaction : Type :=
| Legacy (tx : LegacyTransaction.t)
| AccessList (tx : AccessListTransaction.t)
| FeeMarket (tx : FeeMarketTransaction.t)
| Blob (tx : BlobTransaction.t)
| SetCode (tx : SetCodeTransaction.t).

(** Attribute access on a value of the union ([tx.data], [tx.to], ...). *)
Definition tx_data (tx : Transaction) : Bytes :=
  match tx with
  | Legacy t => LegacyTransaction.data t
  | AccessList t => AccessListTransaction.data t
  | FeeMarket t => FeeMarketTransaction.data t
  | Blob t => BlobTransaction.data t
  | SetCode t => SetCodeTransaction.data t
  end.

Definition tx_to (tx : Transaction) : Bytes :=
  match tx with
  | Legacy t => LegacyTransaction.to t
  | AccessList t => AccessListTransaction.to t
  | FeeMarket t => FeeMarketTransaction.to t
  | Blob t => BlobTransaction.to t
  | SetCode t => SetCodeTransaction.to t
  end.

Definition tx_gas (tx : Transaction) : Z :=
  match tx with
  | Legacy t => LegacyTransaction.gas t
  | AccessList t => AccessListTransaction.gas t
  | FeeMarket t => FeeMarketTransaction.gas t
  | Blob t => BlobTransaction.gas t
  | SetCode t => SetCodeTransaction.gas t
  end.

Definition tx_nonce (tx : Transaction) : Z :=
  match tx with
  | Legacy t => LegacyTransaction.nonce t
  | AccessList t => AccessListTransaction.nonce t
  | FeeMarket t => FeeMarketTransaction.nonce t
  | Blob t => BlobTransaction.nonce t
  | SetCode t => SetCodeTransaction.nonce t
  end.

Definition tx_r (tx : Transaction) : Z :=
  match tx with
  | Legacy t => LegacyTransaction.r t
  | AccessList t => AccessListTransaction.r t
  | FeeMarket t => FeeMarketTransaction.r t
  | Blob t => BlobTransaction.r t
  | SetCode t => SetCodeTransaction.r t
  end.

Definition tx_s (tx : Transaction) : Z :=
  match tx with
  | Legacy t => LegacyTransaction.s t
  | AccessList t => AccessListTransaction.s t
  | FeeMarket t => FeeMarketTransaction.s t
  | Blob t => BlobTransaction.s t
  | SetCode t => SetCodeTransaction.s t
  end.

(** The transaction with its [data] field replaced. *)
Definition tx_set_data (tx : Transaction) (d : Bytes) : Transaction :=
  match tx with
  | Legacy t => Legacy (LegacyTransaction.set_data t d)
  | AccessList t => AccessList (AccessListTransaction.set_data t d)
  | FeeMarket t => FeeMarket (FeeMarketTransaction.set_data t d)
  | Blob t => Blob (BlobTransaction.set_data t d)
  | SetCode t => SetCode (SetCodeTransaction.set_data t d)
  end.

(** The access list of the four classes that carry one (the classes of the
    [isinstance] test in the gas calculator); [None] for a legacy
    transaction. *)
Definition tx_access_list (tx : Transaction) : option (list Access.t) :=
  match tx with
  | Legacy _ => None
  | AccessList t => Some (AccessListTransaction.access_list t)
  | FeeMarket t => Some (FeeMarketTransaction.access_list t)
  | Blob t => Some (BlobTransaction.access_list t)
  | SetCode t => Some (SetCodeTransaction.access_list t)
  end.

(** [tx.y_parity] of a typed transaction; a legacy transaction has [v]. *)
Definition tx_y_parity (tx : Transaction) : option Z :=
  match tx with
  | Legacy _ => None
  | AccessList t => Some (AccessListTransaction.y_parity t)
  | FeeMarket t => Some (FeeMarketTransaction.y_parity t)
  | Blob t => Some (BlobTransaction.y_parity t)
  | SetCode t => Some (SetCodeTransaction.y_parity t)
  end.

(** Sum of a list of integers. *)
Definition Zsum (l : list Z) : Z := fold_right Z.add 0 l.

(** The byte [encode_transaction] puts in front of the RLP encoding; a
    legacy transaction has none. *)
Definition type_tag (tx : Transaction) : option byte :=
  match tx with
  | Legacy _ => None
  | AccessList _ => Some x01
  | FeeMarket _ => Some x02
  | Blob _ => Some x03
  | SetCode _ => Some x04
  end.

(** [tx.authorizations], which only a SetCode transaction has. *)
Definition tx_authorizations (tx : Transaction)
  : option (list Authorization.t) :=
  match tx with
  | SetCode t => Some (SetCodeTransaction.authorizations t)
  | _ => None
  end.

(** The calldata tokens of EIP-7623 as the gas calculator counts them: one
    per zero byte, four per other byte. *)
Definition tokens_in_calldata (data : Bytes) : Z :=
  Zsum (map (fun b => if byte_val b =? 0 then 1 else 4) data).

(** A dataclass seen by the RLP encoder, without its last three fields, and
    those three fields. *)
Definition without_signature (x : Extended) : Extended :=
  match x with
  | ESeq items => ESeq (firstn (List.length items - 3) items)
  | _ => x
  end.

Definition signature_of (x : Extended) : list Extended :=
  match x with
  | ESeq items => skipn (List.length items - 3) items
  | _ => []
  end.

(** [Union[LegacyTransaction, Bytes]]: what [encode_transaction] returns
    and [decode_transaction] accepts. *)
Inductive Encoded : Type :=
| EncLegacy (tx : LegacyTransaction.t)
| EncBytes (b : Bytes).

(** ** Well-formed values

    The invariants of the field types: [Uint] is not negative, [U8], [U64]
    and [U256] are bounded, an [Address] has 20 bytes, a [Bytes32] and a
    [VersionedHash] have 32, and [to] is [Bytes0] or an [Address] where the
    class allows a contract creation. *)

Definition is_Uint (n : Z) : bool := 0 <=? n.
Definition is_U8 (n : Z) : bool := (0 <=? n) && (n <=? 255).
Definition is_U64 (n : Z) : bool := (0 <=? n) && (n <=? U64_MAX_VALUE).
Definition is_U256 (n : Z) : bool := (0 <=? n) && (n <=? U256_MAX_VALUE).
Definition is_Address (b : Bytes) : bool := Nat.eqb (List.length b) 20.
Definition is_Bytes32 (b : Bytes) : bool := Nat.eqb (List.length b) 32.
Definition is_Bytes0_or_Address (b : Bytes) : bool :=
  Nat.eqb (List.length b) 0 || Nat.eqb (List.length b) 20.

Definition well_formed_Access (a : Access.t) : bool :=
  is_Address (Access.account a) && forallb is_Bytes32 (Access.slots a).

(** Modelled from the spec: section 3.3 names the fields of an
    [Authorization]; their types are those of EIP-7702, the ones at which
    the reference codec reads them. *)
Definition well_formed_Authorization (a : Authorization.t) : bool :=
  is_U256 (Authorization.chain_id a)
  && is_Address (Authorization.address a)
  && is_U64 (Authorization.nonce a)
  && is_U8 (Authorization.y_parity a)
  && is_U256 (Authorization.r a)
  && is_U256 (Authorization.s a).

Definition well_formed_LegacyTransaction (tx : LegacyTransaction.t) : bool :=
  is_U256 (LegacyTransaction.nonce tx)
  && is_Uint (LegacyTransaction.gas_price tx)
  && is_Uint (LegacyTransaction.gas tx)
  && is_Bytes0_or_Address (LegacyTransaction.to tx)
  && is_U256 (LegacyTransaction.value tx)
  && is_U256 (LegacyTransaction.v tx)
  && is_U256 (LegacyTransaction.r tx)
  && is_U256 (LegacyTransaction.s tx).

Definition well_formed_AccessListTransaction
  (tx : AccessListTransaction.t) : bool :=
  is_U64 (AccessListTransaction.chain_id tx)
  && is_U256 (AccessListTransaction.nonce tx)
  && is_Uint (AccessListTransaction.gas_price tx)
  && is_Uint (AccessListTransaction.gas tx)
  && is_Bytes0_or_Address (AccessListTransaction.to tx)
  && is_U256 (AccessListTransaction.value tx)
  && forallb well_formed_Access (AccessListTransaction.access_list tx)
  && is_U256 (AccessListTransaction.y_parity tx)
  && is_U256 (AccessListTransaction.r tx)
  && is_U256 (AccessListTransaction.s tx).

Definition well_formed_FeeMarketTransaction
  (tx : FeeMarketTransaction.t) : bool :=
  is_U64 (FeeMarketTransaction.chain_id tx)
  && is_U256 (FeeMarketTransaction.nonce tx)
  && is_Uint (FeeMarketTransaction.max_priority_fee_per_gas tx)
  && is_Uint (FeeMarketTransaction.max_fee_per_gas tx)
  && is_Uint (FeeMarketTransaction.gas tx)
  && is_Bytes0_or_Address (FeeMarketTransaction.to tx)
  && is_U256 (FeeMarketTransaction.value tx)
  && forallb well_formed_Access (FeeMarketTransaction.access_list tx)
  && is_U256 (FeeMarketTransaction.y_parity tx)
  && is_U256 (FeeMarketTransaction.r tx)
  && is_U256 (FeeMarketTransaction.s tx).

Definition well_formed_BlobTransaction (tx : BlobTransaction.t) : bool :=
  is_U64 (BlobTransaction.chain_id tx)
  && is_U256 (BlobTransaction.nonce tx)
  && is_Uint (BlobTransaction.max_priority_fee_per_gas tx)
  && is_Uint (BlobTransaction.max_fee_per_gas tx)
  && is_Uint (BlobTransaction.gas tx)
  && is_Address (BlobTransaction.to tx)
  && is_U256 (BlobTransaction.value tx)
  && forallb well_formed_Access (BlobTransaction.access_list tx)
  && is_U256 (BlobTransaction.max_fee_per_blob_gas tx)
  && forallb is_Bytes32 (BlobTransaction.blob_versioned_hashes tx)
  && is_U256 (BlobTransaction.y_parity tx)
  && is_U256 (BlobTransaction.r tx)
  && is_U256 (BlobTransaction.s tx).

Definition well_formed_SetCodeTransaction
  (tx : SetCodeTransaction.t) : bool :=
  is_U64 (SetCodeTransaction.chain_id tx)
  && is_U64 (SetCodeTransaction.nonce tx)
  && is_Uint (SetCodeTransaction.max_priority_fee_per_gas tx)
  && is_Uint (SetCodeTransaction.max_fee_per_gas tx)
  && is_Uint (SetCodeTransaction.gas tx)
  && is_Address (SetCodeTransaction.to tx)
  && is_U256 (SetCodeTransaction.value tx)
  && forallb well_formed_Access (SetCodeTransaction.access_list tx)
  && forallb well_formed_Authorization (SetCodeTransaction.authorizations tx)
  && is_U256 (SetCodeTransaction.y_parity tx)
  && is_U256 (SetCodeTransaction.r tx)
  && is_U256 (SetCodeTransaction.s tx).

Definition well_formed (tx : Transaction) : bool :=
  match tx with
  | Legacy t => well_formed_LegacyTransaction t
  | AccessList t => well_formed_AccessListTransaction t
  | FeeMarket t => well_formed_FeeMarketTransaction t
  | Blob t => well_formed_BlobTransaction t
  | SetCode t => well_formed_SetCodeTransaction t
  end.

(** The number of bytes of an encoded transaction; a legacy transaction is
    handed on as a record. *)
Definition encoded_len (tx : Encoded) : Z :=
  match tx with
  | EncLegacy _ => 0
  | EncBytes b => len b
  end.

(** ** Constants *)

Definition TX_BASE_COST : Z := 21000.
Definition FLOOR_CALLDATA_COST : Z := 10.
Definition STANDARD_CALLDATA_TOKEN_COST : Z := 4.
Definition TX_CREATE_COST : Z := 32000.
Definition TX_ACCESS_LIST_ADDRESS_COST : Z := 2400.
Definition TX_ACCESS_LIST_STORAGE_KEY_COST : Z := 1900.

(** ** Indexing and slicing of byte strings *)

(** [b[i]] for a non-negative [i]: [IndexError] out of range. *)
Definition getitem (b : Bytes) (i : nat) : result Z :=
  match nth_error b i with
  | Some x => Ok (byte_val x)
  | None => Raise IndexError
  end.

(** [b[lo:hi]] for non-negative bounds: slicing never raises. *)
Definition slice (b : Bytes) (lo hi : nat) : Bytes :=
  skipn lo (firstn hi b).

(** [b[lo:]]. *)
Definition slice_from (b : Bytes) (lo : nat) : Bytes := skipn lo b.

(** The constructor of [Address]: a fixed-width byte string of 20 bytes;
    any other length is a [ValueError]. *)
Definition Address (b : Bytes) : result Bytes :=
  if Nat.eqb (List.length b) 20 then Ok b else Raise ValueError.

(** ** A monad for code that may raise *)

Definition rbind {A B : Type} (m : result A) (k : A -> result B) : result B :=
  match m with
  | Ok a => k a
  | Raise e => Raise e
  end.

Notation "x <-? m ;; k" := (rbind m (fun x => k))
  (at level 61, m at next level, right associativity).

(** ** A monad for code that may raise and that calls the curve

    [recover_sender] is the one function that calls [secp256k1_recover].
    To speak about what happens before the call, the calls are logged: a
    computation maps the log so far to its outcome and the extended log. *)

Definition Call : Type := (Z * Z * Z * Bytes)%type.

Definition M (A : Type) : Type := list Call -> result A * list Call.

Definition ret {A : Type} (a : A) : M A := fun log => (Ok a, log).

Definition raise {A : Type} (e : exception) : M A := fun log => (Raise e, log).

Definition bind {A B : Type} (m : M A) (k : A -> M B) : M B :=
  fun log =>
    match m log with
    | (Ok a, log') => k a log'
    | (Raise e, log') => (Raise e, log')
    end.

Definition lift {A : Type} (r : result A) : M A := fun log => (r, log).

Notation "x <- m ;; k" := (bind m (fun x => k))
  (at level 61, m at next level, right associativity).

(** ** Collaborators

    The modules the transaction core imports and that are not part of it.
    Each is an interface; the core is written against any instance. *)

(** [ethereum_rlp]: [rlp.encode] and, for each typed transaction class,
    [rlp.decode_to(cls, _)], which raises on malformed input. *)
Class RLP : Type := {
  rlp_encode : Extended -> Bytes;
  rlp_decode_to_AccessListTransaction :
    Bytes -> result AccessListTransaction.t;
  rlp_decode_to_FeeMarketTransaction :
    Bytes -> result FeeMarketTransaction.t;
  rlp_decode_to_BlobTransaction :
    Bytes -> result BlobTransaction.t;
  rlp_decode_to_SetCodeTransaction :
    Bytes -> result SetCodeTransaction.t
}.

(** [ethereum.crypto]: the hash, the curve order and public-key recovery,
    which raises on an unrecoverable signature. *)
Class Crypto : Type := {
  keccak256 : Bytes -> Bytes;
  SECP256K1N : Z;
  secp256k1_recover : Z -> Z -> Z -> Bytes -> result Bytes
}.

(** The EVM: [vm.interpreter.MAX_CODE_SIZE],
    [vm.eoa_delegation.PER_EMPTY_ACCOUNT_COST] and [vm.gas.init_code_cost]. *)
Class EVM : Type := {
  MAX_CODE_SIZE : Z;
  PER_EMPTY_ACCOUNT_COST : Z;
  init_code_cost : Z -> Z
}.

Section TransactionCore.

Context {rlp : RLP} {crypto : Crypto} {evm : EVM}.

Definition call_secp256k1_recover (r s v : Z) (msg_hash : Bytes) : M Bytes :=
  fun log => (secp256k1_recover r s v msg_hash, log ++ [(r, s, v, msg_hash)]).

(** ** Envelope codec *)

Definition encode_transaction (tx : Transaction) : Encoded :=
  match tx with
  | Legacy t => EncLegacy t
  | AccessList t =>
      EncBytes ([x01] ++ rlp_encode (AccessListTransaction.to_extended t))
  | FeeMarket t =>
      EncBytes ([x02] ++ rlp_encode (FeeMarketTransaction.to_extended t))
  | Blob t =>
      EncBytes ([x03] ++ rlp_encode (BlobTransaction.to_extended t))
  | SetCode t =>
      EncBytes ([x04] ++ rlp_encode (SetCodeTransaction.to_extended t))
  end.

Definition decode_transaction (tx : Encoded) : result Transaction :=
  match tx with
  | EncBytes b =>
      tx0 <-? getitem b 0 ;;
      if tx0 =? 1 then
        result_map AccessList
          (rlp_decode_to_AccessListTransaction (slice_from b 1))
      else if tx0 =? 2 then
        result_map FeeMarket
          (rlp_decode_to_FeeMarketTransaction (slice_from b 1))
      else if tx0 =? 3 then
        result_map Blob (rlp_decode_to_BlobTransaction (slice_from b 1))
      else if tx0 =? 4 then
        result_map SetCode
          (rlp_decode_to_SetCodeTransaction (slice_from b 1))
      else
        Raise (TransactionTypeError tx0)
  | EncLegacy t => Ok (Legacy t)
  end.

(** ** Intrinsic gas *)

(** The loop [for byte in tx.data: if byte == 0: zero_bytes += 1]. *)
Definition count_zero_bytes (data : Bytes) : Z :=
  fold_left
    (fun zero_bytes byte =>
       if byte_val byte =? 0 then zero_bytes + 1 else zero_bytes)
    data 0.

(** The loop over [tx.access_list], two additions per entry. *)
Definition access_list_loop (access_list : list Access.t) : Z :=
  fold_left
    (fun access_list_cost access =>
       let access_list_cost :=
         access_list_cost + TX_ACCESS_LIST_ADDRESS_COST in
       access_list_cost
       + ulen (Access.slots access) * TX_ACCESS_LIST_STORAGE_KEY_COST)
    access_list 0.

Definition calculate_intrinsic_cost (tx : Transaction) : Z * Z :=
  let zero_bytes := count_zero_bytes (tx_data tx) in
  let tokens_in_calldata :=
    zero_bytes + (len (tx_data tx) - zero_bytes) * 4 in
  let calldata_floor_gas_cost :=
    tokens_in_calldata * FLOOR_CALLDATA_COST + TX_BASE_COST in
  let data_cost := tokens_in_calldata * STANDARD_CALLDATA_TOKEN_COST in
  let create_cost :=
    if Bytes_eqb (tx_to tx) Bytes0
    then TX_CREATE_COST + init_code_cost (ulen (tx_data tx))
    else 0 in
  let access_list_cost :=
    match tx with
    | Legacy _ => 0
    | AccessList t => access_list_loop (AccessListTransaction.access_list t)
    | FeeMarket t => access_list_loop (FeeMarketTransaction.access_list t)
    | Blob t => access_list_loop (BlobTransaction.access_list t)
    | SetCode t => access_list_loop (SetCodeTransaction.access_list t)
    end in
  let auth_cost :=
    match tx with
    | SetCode t =>
        0 + PER_EMPTY_ACCOUNT_COST * len (SetCodeTransaction.authorizations t)
    | _ => 0
    end in
  (TX_BASE_COST + data_cost + create_cost + access_list_cost + auth_cost,
   calldata_floor_gas_cost).

(** ** Validation *)

Definition validate_transaction (tx : Transaction) : result (Z * Z) :=
  let '(intrinsic_gas, calldata_floor_gas_cost) :=
    calculate_intrinsic_cost tx in
  if Z.max intrinsic_gas calldata_floor_gas_cost >? tx_gas tx then
    Raise (InvalidTransaction "Insufficient gas")
  else if tx_nonce tx >=? U64_MAX_VALUE then
    Raise (InvalidTransaction "Nonce too high")
  else if Bytes_eqb (tx_to tx) Bytes0
          && (len (tx_data tx) >? 2 * MAX_CODE_SIZE) then
    Raise (InvalidTransaction "Code size too large")
  else
    Ok (intrinsic_gas, calldata_floor_gas_cost).


(** ** Signing hashes *)

Definition signing_hash_pre155 (tx : LegacyTransaction.t) : Bytes :=
  keccak256
    (rlp_encode
       (ESeq [EUint (LegacyTransaction.nonce tx);
              EUint (LegacyTransaction.gas_price tx);
              EUint (LegacyTransaction.gas tx);
              EBytes (LegacyTransaction.to tx);
              EUint (LegacyTransaction.value tx);
              EBytes (LegacyTransaction.data tx)])).

Definition signing_hash_155 (tx : LegacyTransaction.t) (chain_id : Z)
  : Bytes :=
  keccak256
    (rlp_encode
       (ESeq [EUint (LegacyTransaction.nonce tx);
              EUint (LegacyTransaction.gas_price tx);
              EUint (LegacyTransaction.gas tx);
              EBytes (LegacyTransaction.to tx);
              EUint (LegacyTransaction.value tx);
              EBytes (LegacyTransaction.data tx);
              EUint chain_id;
              EUint 0;
              EUint 0])).

Definition signing_hash_2930 (tx : AccessListTransaction.t) : Bytes :=
  keccak256
    ([x01]
     ++ rlp_encode
          (ESeq [EUint (AccessListTransaction.chain_id tx);
                 EUint (AccessListTransaction.nonce tx);
                 EUint (AccessListTransaction.gas_price tx);
                 EUint (AccessListTransaction.gas tx);
                 EBytes (AccessListTransaction.to tx);
                 EUint (AccessListTransaction.value tx);
                 EBytes (AccessListTransaction.data tx);
                 access_list_ext (AccessListTransaction.access_list tx)])).

Definition signing_hash_1559 (tx : FeeMarketTransaction.t) : Bytes :=
  keccak256
    ([x02]
     ++ rlp_encode
          (ESeq [EUint (FeeMarketTransaction.chain_id tx);
                 EUint (FeeMarketTransaction.nonce tx);
                 EUint (FeeMarketTransaction.max_priority_fee_per_gas tx);
                 EUint (FeeMarketTransaction.max_fee_per_gas tx);
                 EUint (FeeMarketTransaction.gas tx);
                 EBytes (FeeMarketTransaction.to tx);
                 EUint (FeeMarketTransaction.value tx);
                 EBytes (FeeMarketTransaction.data tx);
                 access_list_ext (FeeMarketTransaction.access_list tx)])).

Definition signing_hash_4844 (tx : BlobTransaction.t) : Bytes :=
  keccak256
    ([x03]
     ++ rlp_encode
          (ESeq [EUint (BlobTransaction.chain_id tx);
                 EUint (BlobTransaction.nonce tx);
                 EUint (BlobTransaction.max_priority_fee_per_gas tx);
                 EUint (BlobTransaction.max_fee_per_gas tx);
                 EUint (BlobTransaction.gas tx);
                 EBytes (BlobTransaction.to tx);
                 EUint (BlobTransaction.value tx);
                 EBytes (BlobTransaction.data tx);
                 access_list_ext (BlobTransaction.access_list tx);
                 EUint (BlobTransaction.max_fee_per_blob_gas tx);
                 ESeq (map EBytes (BlobTransaction.blob_versioned_hashes tx))])).

Definition signing_hash_7702 (tx : SetCodeTransaction.t) : Bytes :=
  keccak256
    ([x04]
     ++ rlp_encode
          (ESeq [EUint (SetCodeTransaction.chain_id tx);
                 EUint (SetCodeTransaction.nonce tx);
                 EUint (SetCodeTransaction.max_priority_fee_per_gas tx);
                 EUint (SetCodeTransaction.max_fee_per_gas tx);
                 EUint (SetCodeTransaction.gas tx);
                 EBytes (SetCodeTransaction.to tx);
                 EUint (SetCodeTransaction.value tx);
                 EBytes (SetCodeTransaction.data tx);
                 access_list_ext (SetCodeTransaction.access_list tx);
                 authorizations_ext (SetCodeTransaction.authorizations tx)])).

(** ** Sender recovery

    The [U256] arithmetic on [v] and [chain_id] is checked in the source.
    It is written here on [Z]: [chain_id] is a [U64], so [chain_id * 2],
    [35 + chain_id_x2] and [36 + chain_id_x2] are below [2 ^ 256], and the
    two subtractions are only reached with [v] equal to 27 or 28, resp. to
    [35 + chain_id_x2] or [36 + chain_id_x2], where they yield 0 or 1. *)

Definition recover_sender (chain_id : Z) (tx : Transaction) : M Bytes :=
  let r := tx_r tx in
  let s := tx_s tx in
  if (0 >=? r) || (r >=? SECP256K1N) then
    raise (InvalidSignatureError "bad r")
  else if (0 >=? s) || (s >? SECP256K1N / 2) then
    raise (InvalidSignatureError "bad s")
  else
    public_key <-
      match tx with
      | Legacy tx =>
          let v := LegacyTransaction.v tx in
          if (v =? 27) || (v =? 28) then
            call_secp256k1_recover r s (v - 27) (signing_hash_pre155 tx)
          else
            let chain_id_x2 := chain_id * 2 in
            if negb (v =? 35 + chain_id_x2) && negb (v =? 36 + chain_id_x2)
            then raise (InvalidSignatureError "bad v")
            else
              call_secp256k1_recover r s (v - 35 - chain_id_x2)
                (signing_hash_155 tx chain_id)
      | AccessList tx =>
          let y_parity := AccessListTransaction.y_parity tx in
          if negb ((y_parity =? 0) || (y_parity =? 1)) then
            raise (InvalidSignatureError "bad y_parity")
          else
            call_secp256k1_recover r s y_parity (signing_hash_2930 tx)
      | FeeMarket tx =>
          let y_parity := FeeMarketTransaction.y_parity tx in
          if negb ((y_parity =? 0) || (y_parity =? 1)) then
            raise (InvalidSignatureError "bad y_parity")
          else
            call_secp256k1_recover r s y_parity (signing_hash_1559 tx)
      | Blob tx =>
          let y_parity := BlobTransaction.y_parity tx in
          if negb ((y_parity =? 0) || (y_parity =? 1)) then
            raise (InvalidSignatureError "bad y_parity")
          else
            call_secp256k1_recover r s y_parity (signing_hash_4844 tx)
      | SetCode tx =>
          let y_parity := SetCodeTransaction.y_parity tx in
          if negb ((y_parity =? 0) || (y_parity =? 1)) then
            raise (InvalidSignatureError "bad y_parity")
          else
            call_secp256k1_recover r s y_parity (signing_hash_7702 tx)
      end ;;
    lift (Address (slice (keccak256 public_key) 12 32)).

(** ** Transaction hash *)

Definition get_transaction_hash (tx : Encoded) : Bytes :=
  match tx with
  | EncLegacy t => keccak256 (rlp_encode (LegacyTransaction.to_extended t))
  | EncBytes b => keccak256 b
  end.

End TransactionCore.

(** * Reference collaborators

    One implementation of each interface, used to run the transaction core
    on concrete inputs and to state the round trip through the codec.  The
    theorems of the sections on properties hold for every implementation. *)

Module Reference.

(** ** RLP

    Modelled from the spec: the codec contract of section 6.2.  Unsigned
    integers are big-endian of minimal width, zero being the empty string;
    byte strings and lists carry a length prefix; decoding consumes every
    byte and fails on trailing bytes, on a wrong field count, on a field of
    the wrong shape and on non-minimal integers and lengths. *)

Definition byte_of_Z (n : Z) : byte :=
  match Byte.of_N (Z.to_N n) with
  | Some b => b
  | None => x00
  end.

Fixpoint to_be_bytes_aux (fuel : nat) (n : Z) (acc : Bytes) : Bytes :=
  match fuel with
  | O => acc
  | S fuel' =>
      if n <=? 0 then acc
      else to_be_bytes_aux fuel' (n / 256) (byte_of_Z (n mod 256) :: acc)
  end.

Definition to_be_bytes (n : Z) : Bytes :=
  to_be_bytes_aux (S (Z.to_nat (Z.log2 n))) n [].

Definition from_be_bytes (b : Bytes) : Z :=
  fold_left (fun acc x => acc * 256 + byte_val x) b 0.

(** The length prefix: [offset] is 128 for a string and 192 for a list. *)
Definition with_prefix (offset : Z) (payload : Bytes) : Bytes :=
  let n := len payload in
  if n <? 56 then byte_of_Z (offset + n) :: payload
  else
    let length_bytes := to_be_bytes n in
    byte_of_Z (offset + 55 + len length_bytes) :: length_bytes ++ payload.

Definition encode_bytes (raw : Bytes) : Bytes :=
  match raw with
  | [x] => if byte_val x <? 128 then [x] else with_prefix 128 raw
  | _ => with_prefix 128 raw
  end.

Fixpoint encode (x : Extended) : Bytes :=
  match x with
  | EBytes b => encode_bytes b
  | EUint n => encode_bytes (to_be_bytes n)
  | ESeq items => with_prefix 192 (flat_map encode items)
  end.

(** What the decoder yields before it is read at a type. *)
Inductive Simple : Type :=
| SBytes (b : Bytes)
| SList (items : list Simple).

Definition obind {A B : Type} (m : option A) (k : A -> option B) : option B :=
  match m with
  | Some a => k a
  | None => None
  end.

Notation "x <-- m ;; k" := (obind m (fun x => k))
  (at level 61, m at next level, right associativity).

Definition take (n : Z) (b : Bytes) : option (Bytes * Bytes) :=
  if (0 <=? n) && (n <=? len b)
  then Some (firstn (Z.to_nat n) b, skipn (Z.to_nat n) b)
  else None.

(** The length field of the long form: no leading zero, at least 56. *)
Definition take_length (width : Z) (b : Bytes) : option (Z * Bytes) :=
  p <-- take width b ;;
  match fst p with
  | [] => None
  | x :: _ =>
      if byte_val x =? 0 then None
      else
        let n := from_be_bytes (fst p) in
        if n <? 56 then None else Some (n, snd p)
  end.

Fixpoint decode_item (fuel : nat) (b : Bytes) : option (Simple * Bytes) :=
  match fuel with
  | O => None
  | S fuel' =>
      match b with
      | [] => None
      | p :: rest =>
          let pv := byte_val p in
          if pv <? 128 then Some (SBytes [p], rest)
          else if pv <? 184 then
            q <-- take (pv - 128) rest ;;
            match fst q with
            | [x] =>
                if byte_val x <? 128 then None
                else Some (SBytes (fst q), snd q)
            | _ => Some (SBytes (fst q), snd q)
            end
          else if pv <? 192 then
            l <-- take_length (pv - 183) rest ;;
            q <-- take (fst l) (snd l) ;;
            Some (SBytes (fst q), snd q)
          else if pv <? 248 then
            q <-- take (pv - 192) rest ;;
            items <-- decode_items fuel' (fst q) ;;
            Some (SList items, snd q)
          else
            l <-- take_length (pv - 247) rest ;;
            q <-- take (fst l) (snd l) ;;
            items <-- decode_items fuel' (fst q) ;;
            Some (SList items, snd q)
      end
  end
with decode_items (fuel : nat) (b : Bytes) : option (list Simple) :=
  match fuel with
  | O => None
  | S fuel' =>
      match b with
      | [] => Some []
      | _ :: _ =>
          q <-- decode_item fuel' b ;;
          items <-- decode_items fuel' (snd q) ;;
          Some (fst q :: items)
      end
  end.

Definition decode (b : Bytes) : option Simple :=
  q <-- decode_item (2 * List.length b + 2) b ;;
  match snd q with
  | [] => Some (fst q)
  | _ :: _ => None
  end.

(** The encoder on decoded items; [encode] factors through it. *)
Fixpoint encode_simple (s : Simple) : Bytes :=
  match s with
  | SBytes b => encode_bytes b
  | SList items => with_prefix 192 (flat_map encode_simple items)
  end.

(** What the decoder yields on the encoding of an object. *)
Fixpoint simple (x : Extended) : Simple :=
  match x with
  | EBytes b => SBytes b
  | EUint n => SBytes (to_be_bytes n)
  | ESeq items => SList (map simple items)
  end.

(** The decoder reads [s] back from its encoding, whatever follows it,
    given fuel for twice the length. *)
Definition decodes_back (s : Simple) : Prop :=
  forall (fuel : nat) (rest : Bytes),
    len (encode_simple s) < 2 ^ 64 ->
    2 * len (encode_simple s) <= Z.of_nat fuel ->
    decode_item fuel (encode_simple s ++ rest) = Some (s, rest).

(** Reading a decoded item at a type. *)

Definition read_uint (max : option Z) (s : Simple) : option Z :=
  match s with
  | SBytes [] => Some 0
  | SBytes (x :: b) =>
      if byte_val x =? 0 then None
      else
        let n := from_be_bytes (x :: b) in
        match max with
        | Some m => if n <=? m then Some n else None
        | None => Some n
        end
  | SList _ => None
  end.

Definition read_Uint : Simple -> option Z := read_uint None.
Definition read_U8 : Simple -> option Z := read_uint (Some 255).
Definition read_U64 : Simple -> option Z := read_uint (Some U64_MAX_VALUE).
Definition read_U256 : Simple -> option Z := read_uint (Some U256_MAX_VALUE).

Definition read_Bytes (s : Simple) : option Bytes :=
  match s with
  | SBytes b => Some b
  | SList _ => None
  end.

Definition read_fixed (n : nat) (s : Simple) : option Bytes :=
  b <-- read_Bytes s ;;
  if Nat.eqb (List.length b) n then Some b else None.

(** [Union[Bytes0, Address]]. *)
Definition read_to (s : Simple) : option Bytes :=
  b <-- read_Bytes s ;;
  if Nat.eqb (List.length b) 0 || Nat.eqb (List.length b) 20
  then Some b else None.

Fixpoint traverse {A B : Type} (f : A -> option B) (l : list A)
  : option (list B) :=
  match l with
  | [] => Some []
  | a :: l' =>
      b <-- f a ;;
      bs <-- traverse f l' ;;
      Some (b :: bs)
  end.

Definition read_tuple {A : Type} (f : Simple -> option A) (s : Simple)
  : option (list A) :=
  match s with
  | SList items => traverse f items
  | SBytes _ => None
  end.

Definition read_Access (s : Simple) : option Access.t :=
  match s with
  | SList [account; slots] =>
      account <-- read_fixed 20 account ;;
      slots <-- read_tuple (read_fixed 32) slots ;;
      Some (Access.mk account slots)
  | _ => None
  end.

Definition read_Authorization (s : Simple) : option Authorization.t :=
  match s with
  | SList [chain_id; address; nonce; y_parity; r; s] =>
      chain_id <-- read_U256 chain_id ;;
      address <-- read_fixed 20 address ;;
      nonce <-- read_U64 nonce ;;
      y_parity <-- read_U8 y_parity ;;
      r <-- read_U256 r ;;
      s <-- read_U256 s ;;
      Some (Authorization.mk chain_id address nonce y_parity r s)
  | _ => None
  end.

Definition read_AccessListTransaction (s : Simple)
  : option AccessListTransaction.t :=
  match s with
  | SList [chain_id; nonce; gas_price; gas; to; value; data; access_list;
           y_parity; r; s] =>
      chain_id <-- read_U64 chain_id ;;
      nonce <-- read_U256 nonce ;;
      gas_price <-- read_Uint gas_price ;;
      gas <-- read_Uint gas ;;
      to <-- read_to to ;;
      value <-- read_U256 value ;;
      data <-- read_Bytes data ;;
      access_list <-- read_tuple read_Access access_list ;;
      y_parity <-- read_U256 y_parity ;;
      r <-- read_U256 r ;;
      s <-- read_U256 s ;;
      Some (AccessListTransaction.mk chain_id nonce gas_price gas to value
              data access_list y_parity r s)
  | _ => None
  end.

Definition read_FeeMarketTransaction (s : Simple)
  : option FeeMarketTransaction.t :=
  match s with
  | SList [chain_id; nonce; max_priority_fee_per_gas; max_fee_per_gas; gas;
           to; value; data; access_list; y_parity; r; s] =>
      chain_id <-- read_U64 chain_id ;;
      nonce <-- read_U256 nonce ;;
      max_priority_fee_per_gas <-- read_Uint max_priority_fee_per_gas ;;
      max_fee_per_gas <-- read_Uint max_fee_per_gas ;;
      gas <-- read_Uint gas ;;
      to <-- read_to to ;;
      value <-- read_U256 value ;;
      data <-- read_Bytes data ;;
      access_list <-- read_tuple read_Access access_list ;;
      y_parity <-- read_U256 y_parity ;;
      r <-- read_U256 r ;;
      s <-- read_U256 s ;;
      Some (FeeMarketTransaction.mk chain_id nonce max_priority_fee_per_gas
              max_fee_per_gas gas to value data access_list y_parity r s)
  | _ => None
  end.

Definition read_BlobTransaction (s : Simple) : option BlobTransaction.t :=
  match s with
  | SList [chain_id; nonce; max_priority_fee_per_gas; max_fee_per_gas; gas;
           to; value; data; access_list; max_fee_per_blob_gas;
           blob_versioned_hashes; y_parity; r; s] =>
      chain_id <-- read_U64 chain_id ;;
      nonce <-- read_U256 nonce ;;
      max_priority_fee_per_gas <-- read_Uint max_priority_fee_per_gas ;;
      max_fee_per_gas <-- read_Uint max_fee_per_gas ;;
      gas <-- read_Uint gas ;;
      to <-- read_fixed 20 to ;;
      value <-- read_U256 value ;;
      data <-- read_Bytes data ;;
      access_list <-- read_tuple read_Access access_list ;;
      max_fee_per_blob_gas <-- read_U256 max_fee_per_blob_gas ;;
      blob_versioned_hashes <--
        read_tuple (read_fixed 32) blob_versioned_hashes ;;
      y_parity <-- read_U256 y_parity ;;
      r <-- read_U256 r ;;
      s <-- read_U256 s ;;
      Some (BlobTransaction.mk chain_id nonce max_priority_fee_per_gas
              max_fee_per_gas gas to value data access_list
              max_fee_per_blob_gas blob_versioned_hashes y_parity r s)
  | _ => None
  end.

Definition read_SetCodeTransaction (s : Simple)
  : option SetCodeTransaction.t :=
  match s with
  | SList [chain_id; nonce; max_priority_fee_per_gas; max_fee_per_gas; gas;
           to; value; data; access_list; authorizations; y_parity; r; s] =>
      chain_id <-- read_U64 chain_id ;;
      nonce <-- read_U64 nonce ;;
      max_priority_fee_per_gas <-- read_Uint max_priority_fee_per_gas ;;
      max_fee_per_gas <-- read_Uint max_fee_per_gas ;;
      gas <-- read_Uint gas ;;
      to <-- read_fixed 20 to ;;
      value <-- read_U256 value ;;
      data <-- read_Bytes data ;;
      access_list <-- read_tuple read_Access access_list ;;
      authorizations <-- read_tuple read_Authorization authorizations ;;
      y_parity <-- read_U256 y_parity ;;
      r <-- read_U256 r ;;
      s <-- read_U256 s ;;
      Some (SetCodeTransaction.mk chain_id nonce max_priority_fee_per_gas
              max_fee_per_gas gas to value data access_list authorizations
              y_parity r s)
  | _ => None
  end.

Definition decode_to {A : Type} (read : Simple -> option A) (b : Bytes)
  : result A :=
  match obind (decode b) read with
  | Some a => Ok a
  | None => Raise DecodingError
  end.

Definition rlp : RLP := {|
  rlp_encode := encode;
  rlp_decode_to_AccessListTransaction := decode_to read_AccessListTransaction;
  rlp_decode_to_FeeMarketTransaction := decode_to read_FeeMarketTransaction;
  rlp_decode_to_BlobTransaction := decode_to read_BlobTransaction;
  rlp_decode_to_SetCodeTransaction := decode_to read_SetCodeTransaction
|}.

(** ** EVM

    The values of the Prague EVM: a code size limit of [0x6000] bytes,
    25000 gas per authorization, and 2 gas per 32-byte word of init code. *)

Definition evm : EVM := {|
  MAX_CODE_SIZE := 24576;
  PER_EMPTY_ACCOUNT_COST := 25000;
  init_code_cost := fun n => 2 * ((n + 31) / 32)
|}.

(** ** Crypto

    The order of secp256k1.  The hash and the recovery are stand-ins of the
    right shape (32 and 64 bytes): the transaction core treats both as
    opaque, and no theorem depends on what they compute. *)

Definition crypto : Crypto := {|
  keccak256 := fun b => firstn 32 (b ++ repeat x00 32);
  SECP256K1N :=
    0xFFFFFFFFFFFFFFFFFFFFFFFFFFFFFFFEBAAEDCE6AF48A03BBFD25E8CD0364141;
  secp256k1_recover := fun r s v msg_hash => Ok (msg_hash ++ msg_hash)
|}.

End Reference.

(** * Sample transactions *)

Module Sample.

Definition address : Bytes := repeat x11 20.
Definition slot : Bytes := repeat x22 32.
Definition versioned_hash : Bytes := x01 :: repeat x33 31.

Definition access_list : list Access.t :=
  [Access.mk address [slot; slot]; Access.mk address []].

Definition authorization : Authorization.t :=
  Authorization.mk 1 address 5 1 1234567 7654321.

(** A legacy EIP-155 transfer on chain 1 ([v = 37]). *)
Definition legacy : LegacyTransaction.t :=
  LegacyTransaction.mk 7 1000000000 21000 address 1 [] 37 12345 67890.

(** A legacy contract creation with init code [0x6001]. *)
Definition creation : LegacyTransaction.t :=
  LegacyTransaction.mk 0 1000000000 100000 Bytes0 0 [x60; x01] 27 12345 67890.

Definition access_list_tx : AccessListTransaction.t :=
  AccessListTransaction.mk 1 7 1000000000 50000 address 0
    [x00; xff; x60; x01] access_list 1 12345 67890.

(** Calldata of 100 bytes [0xff], no access list. *)
Definition fee_market_tx : FeeMarketTransaction.t :=
  FeeMarketTransaction.mk 1 8 2 30000000000 25000 address 0
    (repeat xff 100) [] 0 12345 67890.

Definition blob_tx : BlobTransaction.t :=
  BlobTransaction.mk 1 9 2 30000000000 60000 address 0 [] access_list
    1000 [versioned_hash] 1 12345 67890.

Definition set_code_tx : SetCodeTransaction.t :=
  SetCodeTransaction.mk 1 10 2 30000000000 200000 address 0 [xab]
    access_list [authorization; authorization] 0 12345 67890.

End Sample.

Section Properties.

Context {rlp : RLP} {crypto : Crypto} {evm : EVM}.

(** * Properties *)

(** ** Bytes *)

Lemma byte_val_inj (a b : byte) : byte_val a = byte_val b -> a = b.
Proof.
  unfold byte_val. intro H. apply N2Z.inj in H.
  assert (E : Byte.of_N (Byte.to_N a) = Byte.of_N (Byte.to_N b))
    by (now rewrite H).
  rewrite !Byte.of_to_N in E. now injection E.
Qed.

Lemma byte_val_range (b : byte) : 0 <= byte_val b <= 255.
Proof.
  unfold byte_val. pose proof (Byte.to_N_bounded b). lia.
Qed.

Lemma byte_val_eqb_zero (b : byte) :
  (byte_val b =? 0) = if Byte.byte_eq_dec b x00 then true else false.
Proof.
  destruct (Byte.byte_eq_dec b x00) as [-> | Hne].
  - reflexivity.
  - apply Z.eqb_neq. intro H. apply Hne. now apply byte_val_inj.
Qed.

Lemma Bytes_eqb_Bytes0 (b : Bytes) :
  Bytes_eqb b Bytes0 = match b with [] => true | _ :: _ => false end.
Proof. now destruct b. Qed.

Lemma len_app {A : Type} (l l' : list A) : len (l ++ l') = len l + len l'.
Proof. unfold len. rewrite length_app. lia. Qed.

Lemma len_nonneg {A : Type} (l : list A) : 0 <= len l.
Proof. unfold len. lia. Qed.

(** ** The two loops of the gas calculator *)

Lemma count_zero_bytes_acc (data : Bytes) (acc : Z) :
  fold_left
    (fun zero_bytes byte =>
       if byte_val byte =? 0 then zero_bytes + 1 else zero_bytes)
    data acc
  = acc + Z.of_nat (count_occ Byte.byte_eq_dec data x00).
Proof.
  revert acc. induction data as [| b data IH]; intro acc; simpl.
  - lia.
  - rewrite IH, byte_val_eqb_zero.
    destruct (Byte.byte_eq_dec b x00) as [-> | Hne].
    + destruct (Byte.byte_eq_dec x00 x00); [lia | contradiction].
    + destruct (Byte.byte_eq_dec b x00); [contradiction | lia].
Qed.

Lemma count_zero_bytes_count_occ (data : Bytes) :
  count_zero_bytes data = Z.of_nat (count_occ Byte.byte_eq_dec data x00).
Proof. unfold count_zero_bytes. now rewrite count_zero_bytes_acc. Qed.

Lemma count_zero_bytes_bounds (data : Bytes) :
  0 <= count_zero_bytes data <= len data.
Proof.
  rewrite count_zero_bytes_count_occ. unfold len.
  pose proof (count_occ_bound Byte.byte_eq_dec x00 data). lia.
Qed.

Lemma count_zero_bytes_app (d d' : Bytes) :
  count_zero_bytes (d ++ d') = count_zero_bytes d + count_zero_bytes d'.
Proof.
  rewrite !count_zero_bytes_count_occ, count_occ_app. lia.
Qed.

Lemma access_list_loop_acc (l : list Access.t) (acc : Z) :
  fold_left
    (fun access_list_cost access =>
       let access_list_cost :=
         access_list_cost + TX_ACCESS_LIST_ADDRESS_COST in
       access_list_cost
       + ulen (Access.slots access) * TX_ACCESS_LIST_STORAGE_KEY_COST)
    l acc
  = acc + Zsum (map (fun a => 2400 + 1900 * len (Access.slots a)) l).
Proof.
  revert acc. unfold Zsum.
  induction l as [| a l IH]; intro acc; cbn [fold_left map fold_right].
  - lia.
  - rewrite IH. unfold TX_ACCESS_LIST_ADDRESS_COST,
      TX_ACCESS_LIST_STORAGE_KEY_COST, ulen, len. lia.
Qed.

Lemma access_list_loop_sum (l : list Access.t) :
  access_list_loop l
  = Zsum (map (fun a => 2400 + 1900 * len (Access.slots a)) l).
Proof. unfold access_list_loop. now rewrite access_list_loop_acc. Qed.

(** ** Intrinsic gas *)

(** C1.  [calculate_intrinsic_cost] returns the pair of the intrinsic gas
    and the calldata floor given by the closed formulas: with [zero_bytes]
    the number of zero bytes of the calldata and
    [tokens = zero_bytes + 4 * (len data - zero_bytes)], the floor is
    [tokens * 10 + 21000] and the intrinsic gas is
    [21000 + tokens * 4 + create_cost + access_list_cost + auth_cost],
    where the creation cost is [32000 + init_code_cost (len data)] exactly
    when [to] is empty, the access list cost is the sum over the entries
    (each occurrence counted) of [2400 + 1900 * len slots] and 0 for a
    legacy transaction, and the authorization cost is
    [PER_EMPTY_ACCOUNT_COST * len authorizations] for a SetCode transaction
    and 0 otherwise. *)
Theorem calculate_intrinsic_cost_formula (tx : Transaction) :
  let zero_bytes :=
    Z.of_nat (count_occ Byte.byte_eq_dec (tx_data tx) x00) in
  let tokens_in_calldata :=
    zero_bytes + 4 * (len (tx_data tx) - zero_bytes) in
  let create_cost :=
    match tx_to tx with
    | [] => 32000 + init_code_cost (len (tx_data tx))
    | _ :: _ => 0
    end in
  let access_list_cost :=
    match tx_access_list tx with
    | Some l => Zsum (map (fun a => 2400 + 1900 * len (Access.slots a)) l)
    | None => 0
    end in
  let auth_cost :=
    match tx with
    | SetCode t =>
        PER_EMPTY_ACCOUNT_COST * len (SetCodeTransaction.authorizations t)
    | _ => 0
    end in
  calculate_intrinsic_cost tx
  = (21000 + tokens_in_calldata * 4 + create_cost + access_list_cost
     + auth_cost,
     tokens_in_calldata * 10 + 21000).
Proof.
  cbv zeta. unfold calculate_intrinsic_cost.
  rewrite count_zero_bytes_count_occ, Bytes_eqb_Bytes0.
  destruct tx as [t | t | t | t | t];
    cbn [tx_data tx_to tx_access_list];
    rewrite ?access_list_loop_sum;
    unfold TX_BASE_COST, FLOOR_CALLDATA_COST, STANDARD_CALLDATA_TOKEN_COST,
      TX_CREATE_COST, ulen, len;
    match goal with
    | |- context [match ?x with [] => _ | _ :: _ => _ end] => destruct x
    end; f_equal; lia.
Qed.

(** The source wraps three values in the constructor of [Uint], which
    raises on a negative argument: the token count, the authorization cost
    and the final sum.  None is negative when the EVM's constant and
    function are not (they are a [Uint] constant and a [Uint]-valued
    function): the constructor never raises, which is why
    [calculate_intrinsic_cost] is modelled as a total function. *)
Lemma calculate_intrinsic_cost_Uint_arguments (tx : Transaction) :
  0 <= PER_EMPTY_ACCOUNT_COST ->
  (forall n, 0 <= n -> 0 <= init_code_cost n) ->
  0 <= count_zero_bytes (tx_data tx)
       + (len (tx_data tx) - count_zero_bytes (tx_data tx)) * 4
  /\ (forall t, tx = SetCode t ->
        0 <= PER_EMPTY_ACCOUNT_COST
             * len (SetCodeTransaction.authorizations t))
  /\ 0 <= fst (calculate_intrinsic_cost tx)
  /\ 0 <= snd (calculate_intrinsic_cost tx).
Proof.
  intros Hper Hinit.
  pose proof (count_zero_bytes_bounds (tx_data tx)) as Hz.
  assert (Hal : forall l, 0 <= access_list_loop l).
  { intro l. rewrite access_list_loop_sum. unfold Zsum.
    induction l as [| a l IH]; cbn [map fold_right]; [lia |].
    pose proof (len_nonneg (Access.slots a)). lia. }
  assert (Hcreate :
    0 <= (if Bytes_eqb (tx_to tx) Bytes0
          then TX_CREATE_COST + init_code_cost (ulen (tx_data tx)) else 0)).
  { destruct (Bytes_eqb (tx_to tx) Bytes0); [| lia].
    pose proof (Hinit (ulen (tx_data tx)) (len_nonneg _)).
    unfold TX_CREATE_COST. lia. }
  split; [lia |]. split.
  { intros t _. pose proof (len_nonneg (SetCodeTransaction.authorizations t)).
    nia. }
  unfold calculate_intrinsic_cost. cbn [fst snd].
  unfold TX_BASE_COST, FLOOR_CALLDATA_COST, STANDARD_CALLDATA_TOKEN_COST.
  split; [| lia].
  destruct tx as [t | t | t | t | t]; cbn [tx_data tx_to] in *;
    try pose proof (Hal (AccessListTransaction.access_list t));
    try pose proof (Hal (FeeMarketTransaction.access_list t));
    try pose proof (Hal (BlobTransaction.access_list t));
    try pose proof (Hal (SetCodeTransaction.access_list t));
    try pose proof (len_nonneg (SetCodeTransaction.authorizations t));
    nia.
Qed.

Lemma tx_data_set_data (tx : Transaction) (d : Bytes) :
  tx_data (tx_set_data tx d) = d.
Proof. now destruct tx. Qed.

Lemma tx_to_set_data (tx : Transaction) (d : Bytes) :
  tx_to (tx_set_data tx d) = tx_to tx.
Proof. now destruct tx. Qed.

Lemma count_zero_bytes_single (b : byte) :
  count_zero_bytes [b] = 0 \/ count_zero_bytes [b] = 1.
Proof.
  pose proof (count_zero_bytes_bounds [b]) as H.
  change (len [b]) with 1 in H. lia.
Qed.

(** C8.  Appending one byte to the calldata strictly increases the
    intrinsic gas, for a zero and for a non-zero byte, for each of the five
    classes, for calls and for contract creations.  For a creation the
    EVM's [init_code_cost] enters the sum; what is used of it is that it
    does not decrease from the old to the new calldata length. *)
Theorem intrinsic_gas_strictly_monotone (tx : Transaction) (b : byte) :
  (tx_to tx = Bytes0 ->
   init_code_cost (ulen (tx_data tx))
   <= init_code_cost (ulen (tx_data tx ++ [b]))) ->
  fst (calculate_intrinsic_cost tx)
  < fst (calculate_intrinsic_cost (tx_set_data tx (tx_data tx ++ [b]))).
Proof.
  intro Hinit. unfold calculate_intrinsic_cost. cbn [fst].
  rewrite tx_data_set_data, tx_to_set_data, count_zero_bytes_app, len_app.
  change (len [b]) with 1.
  pose proof (count_zero_bytes_single b) as Hb.
  assert (Hcreate :
    (if Bytes_eqb (tx_to tx) Bytes0
     then TX_CREATE_COST + init_code_cost (ulen (tx_data tx)) else 0)
    <= (if Bytes_eqb (tx_to tx) Bytes0
        then TX_CREATE_COST + init_code_cost (ulen (tx_data tx ++ [b]))
        else 0)).
  { rewrite Bytes_eqb_Bytes0. destruct (tx_to tx) eqn:E; [| lia].
    specialize (Hinit eq_refl). lia. }
  unfold STANDARD_CALLDATA_TOKEN_COST.
  destruct tx as [t | t | t | t | t]; cbn [tx_set_data tx_data tx_to] in *;
    cbn [SetCodeTransaction.set_data SetCodeTransaction.authorizations
         SetCodeTransaction.access_list
         BlobTransaction.set_data BlobTransaction.access_list
         FeeMarketTransaction.set_data FeeMarketTransaction.access_list
         AccessListTransaction.set_data AccessListTransaction.access_list];
    lia.
Qed.

(** ** Validation *)

(** C2.  [validate_transaction] performs three checks in this order and
    raises at the first that fails: "Insufficient gas" when the larger of
    the intrinsic gas and the calldata floor exceeds [tx.gas]; "Nonce too
    high" when [tx.nonce >= 2^64 - 1]; "Code size too large" when [to] is
    the creation sentinel and the calldata is longer than
    [2 * MAX_CODE_SIZE].  When none fails it raises nothing and returns the
    pair computed by [calculate_intrinsic_cost]. *)
Theorem validate_transaction_checks (tx : Transaction) :
  let cost := calculate_intrinsic_cost tx in
  let insufficient_gas := Z.max (fst cost) (snd cost) > tx_gas tx in
  let nonce_too_high := tx_nonce tx >= 2 ^ 64 - 1 in
  let code_too_large :=
    tx_to tx = Bytes0 /\ len (tx_data tx) > 2 * MAX_CODE_SIZE in
  (insufficient_gas ->
   validate_transaction tx = Raise (InvalidTransaction "Insufficient gas"))
  /\ (~ insufficient_gas -> nonce_too_high ->
      validate_transaction tx = Raise (InvalidTransaction "Nonce too high"))
  /\ (~ insufficient_gas -> ~ nonce_too_high -> code_too_large ->
      validate_transaction tx
      = Raise (InvalidTransaction "Code size too large"))
  /\ (~ insufficient_gas -> ~ nonce_too_high -> ~ code_too_large ->
      validate_transaction tx = Ok cost).
Proof.
  cbv zeta. unfold validate_transaction.
  destruct (calculate_intrinsic_cost tx) as [intrinsic_gas floor].
  cbn [fst snd]. change U64_MAX_VALUE with (2 ^ 64 - 1).
  rewrite Bytes_eqb_Bytes0. unfold Bytes0.
  destruct (Z.gtb_spec (Z.max intrinsic_gas floor) (tx_gas tx)) as [Hg | Hg].
  { repeat split; intros; solve [reflexivity | lia]. }
  destruct (Z.geb_spec (tx_nonce tx) (2 ^ 64 - 1)) as [Hn | Hn].
  { repeat split; intros; solve [reflexivity | lia]. }
  destruct (tx_to tx) as [| c to'] eqn:Hto; cbn [andb].
  - destruct (Z.gtb_spec (len (tx_data tx)) (2 * MAX_CODE_SIZE)) as [Hc | Hc].
    + repeat split; intros; try reflexivity; try lia.
      exfalso. match goal with H : ~ (_ /\ _) |- _ => apply H end.
      split; [reflexivity | lia].
    + repeat split; intros; solve [reflexivity | lia].
  - repeat split; intros; try reflexivity; try lia.
    match goal with H : _ /\ _ |- _ => destruct H as [H' _] end.
    discriminate H'.
Qed.

(** ** Envelope codec *)

Lemma getitem_0_cons (c : byte) (rest : Bytes) :
  getitem (c :: rest) 0 = Ok (byte_val c).
Proof. reflexivity. Qed.

(** The four tag tests all fail: the final [else] is reached. *)
Lemma decode_transaction_no_tag (c : byte) (rest : Bytes) :
  byte_val c <> 1 -> byte_val c <> 2 -> byte_val c <> 3 -> byte_val c <> 4 ->
  decode_transaction (EncBytes (c :: rest))
  = Raise (TransactionTypeError (byte_val c)).
Proof.
  intros H1 H2 H3 H4. unfold decode_transaction.
  rewrite getitem_0_cons. cbn [rbind].
  apply Z.eqb_neq in H1, H2, H3, H4. now rewrite H1, H2, H3, H4.
Qed.

Lemma byte_val_neq (c d : byte) : c <> d -> byte_val c <> byte_val d.
Proof. intros Hne Heq. apply Hne. now apply byte_val_inj. Qed.

(** C6.  On a byte string whose first byte is 0x01, 0x02, 0x03 or 0x04,
    [decode_transaction] is the RLP decoding of the remaining bytes at the
    AccessList, FeeMarket, Blob, resp. SetCode class (whatever that decoding
    returns or raises); on any other first byte it raises
    [TransactionTypeError] carrying that byte; a legacy record is returned
    unchanged. *)
Theorem decode_transaction_dispatch
  (rest : Bytes) (legacy : LegacyTransaction.t) :
  decode_transaction (EncBytes (x01 :: rest))
  = result_map AccessList (rlp_decode_to_AccessListTransaction rest)
  /\ decode_transaction (EncBytes (x02 :: rest))
     = result_map FeeMarket (rlp_decode_to_FeeMarketTransaction rest)
  /\ decode_transaction (EncBytes (x03 :: rest))
     = result_map Blob (rlp_decode_to_BlobTransaction rest)
  /\ decode_transaction (EncBytes (x04 :: rest))
     = result_map SetCode (rlp_decode_to_SetCodeTransaction rest)
  /\ (forall c : byte,
        c <> x01 -> c <> x02 -> c <> x03 -> c <> x04 ->
        decode_transaction (EncBytes (c :: rest))
        = Raise (TransactionTypeError (byte_val c)))
  /\ decode_transaction (EncLegacy legacy) = Ok (Legacy legacy).
Proof.
  repeat split; try reflexivity.
  intros c H1 H2 H3 H4.
  apply decode_transaction_no_tag;
    [change 1 with (byte_val x01) | change 2 with (byte_val x02)
    | change 3 with (byte_val x03) | change 4 with (byte_val x04)];
    now apply byte_val_neq.
Qed.

(** C9.  Every first byte outside {1, 2, 3, 4} is rejected with
    [TransactionTypeError] carrying it, whatever follows: the bytes
    0xc0..0xff of an RLP list prefix are treated like the bytes 0x00 and
    0x05..0x7f and like 0x80..0xbf. *)
Theorem decode_transaction_rejects_other_bytes (c : byte) (rest : Bytes) :
  ~ In (byte_val c) [1; 2; 3; 4] ->
  decode_transaction (EncBytes (c :: rest))
  = Raise (TransactionTypeError (byte_val c)).
Proof.
  intro Hnot. apply decode_transaction_no_tag; intro Heq; apply Hnot;
    rewrite Heq; cbn [In]; auto.
Qed.

(** C10.  On the empty byte string the read of [tx[0]] is out of range:
    [decode_transaction] raises [IndexError], which is none of
    [TransactionTypeError], [InvalidTransaction] and
    [InvalidSignatureError]. *)
Theorem decode_transaction_empty :
  decode_transaction (EncBytes []) = Raise IndexError
  /\ (forall n, decode_transaction (EncBytes []) <> Raise (TransactionTypeError n))
  /\ (forall m, decode_transaction (EncBytes []) <> Raise (InvalidTransaction m))
  /\ (forall m,
        decode_transaction (EncBytes []) <> Raise (InvalidSignatureError m)).
Proof.
  assert (H : decode_transaction (EncBytes []) = Raise IndexError)
    by reflexivity.
  rewrite H. repeat split; intros; discriminate.
Qed.

(** The RLP codec returns the record it was given: the instance of the
    codec contract at one transaction.  Nothing is asked for a legacy
    transaction, which does not pass through the codec. *)
Definition rlp_round_trips (tx : Transaction) : Prop :=
  match tx with
  | Legacy _ => True
  | AccessList t =>
      rlp_decode_to_AccessListTransaction
        (rlp_encode (AccessListTransaction.to_extended t)) = Ok t
  | FeeMarket t =>
      rlp_decode_to_FeeMarketTransaction
        (rlp_encode (FeeMarketTransaction.to_extended t)) = Ok t
  | Blob t =>
      rlp_decode_to_BlobTransaction
        (rlp_encode (BlobTransaction.to_extended t)) = Ok t
  | SetCode t =>
      rlp_decode_to_SetCodeTransaction
        (rlp_encode (SetCodeTransaction.to_extended t)) = Ok t
  end.

(** The envelope adds nothing of its own to the round trip: decoding an
    encoded transaction gives the transaction back as soon as the RLP codec
    returns the record it was given. *)
Lemma decode_encode_transaction (tx : Transaction) :
  rlp_round_trips tx ->
  decode_transaction (encode_transaction tx) = Ok tx.
Proof.
  destruct tx as [t | t | t | t | t]; cbn [rlp_round_trips]; intro H;
    [reflexivity | | | |];
    unfold encode_transaction, decode_transaction;
    cbn [app getitem nth_error rbind slice_from skipn];
    match goal with
    | |- context [byte_val ?b =? _] =>
        let v := eval vm_compute in (byte_val b) in
        change (byte_val b) with v
    end;
    cbn [Z.eqb Pos.eqb]; rewrite H; reflexivity.
Qed.

(** ** Signing hashes *)

(** C5.  The signing hash of each typed transaction is keccak256 of the
    tag byte (0x01 AccessList, 0x02 FeeMarket, 0x03 Blob, 0x04 SetCode)
    followed by the RLP encoding of the list of the signing fields in the
    declared order.  The tag byte is the first byte of the preimage and
    lies outside the encoded list: the rest of the preimage is exactly the
    encoding of the fields. *)
Theorem typed_signing_hash_preimage :
  (forall tx : AccessListTransaction.t,
     let fields :=
       ESeq [EUint (AccessListTransaction.chain_id tx);
             EUint (AccessListTransaction.nonce tx);
             EUint (AccessListTransaction.gas_price tx);
             EUint (AccessListTransaction.gas tx);
             EBytes (AccessListTransaction.to tx);
             EUint (AccessListTransaction.value tx);
             EBytes (AccessListTransaction.data tx);
             access_list_ext (AccessListTransaction.access_list tx)] in
     signing_hash_2930 tx = keccak256 (x01 :: rlp_encode fields))
  /\ (forall tx : FeeMarketTransaction.t,
        let fields :=
          ESeq [EUint (FeeMarketTransaction.chain_id tx);
                EUint (FeeMarketTransaction.nonce tx);
                EUint (FeeMarketTransaction.max_priority_fee_per_gas tx);
                EUint (FeeMarketTransaction.max_fee_per_gas tx);
                EUint (FeeMarketTransaction.gas tx);
                EBytes (FeeMarketTransaction.to tx);
                EUint (FeeMarketTransaction.value tx);
                EBytes (FeeMarketTransaction.data tx);
                access_list_ext (FeeMarketTransaction.access_list tx)] in
        signing_hash_1559 tx = keccak256 (x02 :: rlp_encode fields))
  /\ (forall tx : BlobTransaction.t,
        let fields :=
          ESeq [EUint (BlobTransaction.chain_id tx);
                EUint (BlobTransaction.nonce tx);
                EUint (BlobTransaction.max_priority_fee_per_gas tx);
                EUint (BlobTransaction.max_fee_per_gas tx);
                EUint (BlobTransaction.gas tx);
                EBytes (BlobTransaction.to tx);
                EUint (BlobTransaction.value tx);
                EBytes (BlobTransaction.data tx);
                access_list_ext (BlobTransaction.access_list tx);
                EUint (BlobTransaction.max_fee_per_blob_gas tx);
                ESeq (map EBytes (BlobTransaction.blob_versioned_hashes tx))]
        in
        signing_hash_4844 tx = keccak256 (x03 :: rlp_encode fields))
  /\ (forall tx : SetCodeTransaction.t,
        let fields :=
          ESeq [EUint (SetCodeTransaction.chain_id tx);
                EUint (SetCodeTransaction.nonce tx);
                EUint (SetCodeTransaction.max_priority_fee_per_gas tx);
                EUint (SetCodeTransaction.max_fee_per_gas tx);
                EUint (SetCodeTransaction.gas tx);
                EBytes (SetCodeTransaction.to tx);
                EUint (SetCodeTransaction.value tx);
                EBytes (SetCodeTransaction.data tx);
                access_list_ext (SetCodeTransaction.access_list tx);
                authorizations_ext (SetCodeTransaction.authorizations tx)] in
        signing_hash_7702 tx = keccak256 (x04 :: rlp_encode fields)).
Proof.
  repeat split; intro tx; cbv zeta;
    unfold signing_hash_2930, signing_hash_1559, signing_hash_4844,
      signing_hash_7702;
    f_equal.
Qed.

(** ** Sender recovery *)

Lemma r_check_spec (r : Z) :
  (0 >=? r) || (r >=? SECP256K1N) = false <-> 0 < r < SECP256K1N.
Proof.
  destruct (Z.geb_spec 0 r), (Z.geb_spec r SECP256K1N); cbn [orb];
    split; intro Hyp; try discriminate; try reflexivity; lia.
Qed.

Lemma s_check_spec (s : Z) :
  (0 >=? s) || (s >? SECP256K1N / 2) = false <-> 0 < s <= SECP256K1N / 2.
Proof.
  destruct (Z.geb_spec 0 s), (Z.gtb_spec s (SECP256K1N / 2)); cbn [orb];
    split; intro Hyp; try discriminate; try reflexivity; lia.
Qed.

Lemma y_parity_check_spec (y : Z) :
  negb ((y =? 0) || (y =? 1)) = false <-> y = 0 \/ y = 1.
Proof.
  destruct (Z.eqb_spec y 0), (Z.eqb_spec y 1); cbn [orb negb];
    split; intro Hyp; try discriminate; try reflexivity; lia.
Qed.

Lemma recover_sender_bad_r (chain_id : Z) (tx : Transaction) (log : list Call) :
  (0 >=? tx_r tx) || (tx_r tx >=? SECP256K1N) = true ->
  recover_sender chain_id tx log
  = (Raise (InvalidSignatureError "bad r"), log).
Proof. intro H. unfold recover_sender. now rewrite H. Qed.

Lemma recover_sender_bad_s (chain_id : Z) (tx : Transaction) (log : list Call) :
  (0 >=? tx_r tx) || (tx_r tx >=? SECP256K1N) = false ->
  (0 >=? tx_s tx) || (tx_s tx >? SECP256K1N / 2) = true ->
  recover_sender chain_id tx log
  = (Raise (InvalidSignatureError "bad s"), log).
Proof. intros Hr Hs. unfold recover_sender. now rewrite Hr, Hs. Qed.

Lemma recover_sender_bad_y_parity
  (chain_id : Z) (tx : Transaction) (y : Z) (log : list Call) :
  (0 >=? tx_r tx) || (tx_r tx >=? SECP256K1N) = false ->
  (0 >=? tx_s tx) || (tx_s tx >? SECP256K1N / 2) = false ->
  tx_y_parity tx = Some y ->
  negb ((y =? 0) || (y =? 1)) = true ->
  recover_sender chain_id tx log
  = (Raise (InvalidSignatureError "bad y_parity"), log).
Proof.
  intros Hr Hs Hy Hbad. unfold recover_sender. rewrite Hr, Hs.
  destruct tx as [t | t | t | t | t]; cbn [tx_y_parity] in Hy;
    [discriminate | | | |]; injection Hy as <-;
    unfold bind, raise; now rewrite Hbad.
Qed.

(** Once the checks have passed, the curve is called once and the address
    is cut out of the hash of the recovered key. *)
Lemma bind_call_secp256k1_recover
  (r s v : Z) (msg_hash : Bytes) (f : Bytes -> result Bytes)
  (log : list Call) :
  bind (call_secp256k1_recover r s v msg_hash) (fun pk => lift (f pk)) log
  = (rbind (secp256k1_recover r s v msg_hash) f,
     log ++ [(r, s, v, msg_hash)]).
Proof.
  unfold bind, call_secp256k1_recover, lift.
  now destruct (secp256k1_recover r s v msg_hash).
Qed.

(** With all checks passed, a typed transaction reaches the curve: one
    call, on the signing hash of its class, with [y_parity] as recovery
    id. *)
Lemma recover_sender_typed
  (chain_id : Z) (tx : Transaction) (y : Z) (log : list Call) :
  0 < tx_r tx < SECP256K1N ->
  0 < tx_s tx <= SECP256K1N / 2 ->
  tx_y_parity tx = Some y ->
  y = 0 \/ y = 1 ->
  let msg_hash :=
    match tx with
    | Legacy t => signing_hash_pre155 t
    | AccessList t => signing_hash_2930 t
    | FeeMarket t => signing_hash_1559 t
    | Blob t => signing_hash_4844 t
    | SetCode t => signing_hash_7702 t
    end in
  recover_sender chain_id tx log
  = (rbind (secp256k1_recover (tx_r tx) (tx_s tx) y msg_hash)
       (fun public_key => Address (slice (keccak256 public_key) 12 32)),
     log ++ [(tx_r tx, tx_s tx, y, msg_hash)]).
Proof.
  intros Hr Hs Hy Hok. cbv zeta.
  apply r_check_spec in Hr. apply s_check_spec in Hs.
  apply y_parity_check_spec in Hok.
  unfold recover_sender. rewrite Hr, Hs.
  destruct tx as [t | t | t | t | t]; cbn [tx_y_parity] in Hy;
    [discriminate | | | |]; injection Hy as <-;
    rewrite Hok; apply bind_call_secp256k1_recover.
Qed.

(** The checked [U256] arithmetic of the legacy branch never overflows or
    underflows for a [U64] chain id: this is what lets it be written on
    [Z]. *)
Lemma legacy_v_arithmetic_in_range (chain_id v : Z) :
  0 <= chain_id <= U64_MAX_VALUE ->
  let chain_id_x2 := chain_id * 2 in
  0 <= chain_id_x2 <= U256_MAX_VALUE
  /\ 0 <= 35 + chain_id_x2 <= U256_MAX_VALUE
  /\ 0 <= 36 + chain_id_x2 <= U256_MAX_VALUE
  /\ (v = 27 \/ v = 28 -> 0 <= v - 27 <= 1)
  /\ (v = 35 + chain_id_x2 \/ v = 36 + chain_id_x2 ->
      0 <= v - 35 /\ 0 <= v - 35 - chain_id_x2 <= 1).
Proof.
  unfold U64_MAX_VALUE, U256_MAX_VALUE. intros H. cbv zeta.
  assert (2 ^ 64 < 2 ^ 256) by (apply Z.pow_lt_mono_r; lia).
  assert (2 ^ 64 = 18446744073709551616) by reflexivity.
  repeat split; try lia.
Qed.

Lemma bool_true_or_false (b : bool) : b = true \/ b = false.
Proof. destruct b; auto. Qed.

(** C3.  [recover_sender] first checks [0 < r < SECP256K1N] ("bad r"),
    then [0 < s <= SECP256K1N / 2] ("bad s"), then, for the four typed
    classes, that [y_parity] is 0 or 1 ("bad y_parity"), raising
    [InvalidSignatureError] at the first check that fails.  A failed check
    leaves the log of calls to [secp256k1_recover] as it was, and whenever
    the log has grown all three checks have passed: the checks come before
    any call to the curve. *)
Theorem recover_sender_signature_checks
  (chain_id : Z) (tx : Transaction) (log : list Call) :
  let r_ok := 0 < tx_r tx < SECP256K1N in
  let s_ok := 0 < tx_s tx <= SECP256K1N / 2 in
  let y_parity_ok :=
    match tx_y_parity tx with
    | Some y => y = 0 \/ y = 1
    | None => True
    end in
  (~ r_ok ->
   recover_sender chain_id tx log
   = (Raise (InvalidSignatureError "bad r"), log))
  /\ (r_ok -> ~ s_ok ->
      recover_sender chain_id tx log
      = (Raise (InvalidSignatureError "bad s"), log))
  /\ (r_ok -> s_ok -> ~ y_parity_ok ->
      recover_sender chain_id tx log
      = (Raise (InvalidSignatureError "bad y_parity"), log))
  /\ (snd (recover_sender chain_id tx log) <> log ->
      r_ok /\ s_ok /\ y_parity_ok).
Proof.
  cbv zeta.
  destruct (bool_true_or_false
              ((0 >=? tx_r tx) || (tx_r tx >=? SECP256K1N))) as [Hr | Hr].
  { pose proof (recover_sender_bad_r chain_id tx log Hr) as E.
    assert (Hnot : ~ 0 < tx_r tx < SECP256K1N).
    { intro H. apply r_check_spec in H. congruence. }
    rewrite E. cbn [snd].
    split; [| split; [| split]]; intros; try reflexivity; contradiction. }
  pose proof (proj1 (r_check_spec _) Hr) as Hr'.
  destruct (bool_true_or_false
              ((0 >=? tx_s tx) || (tx_s tx >? SECP256K1N / 2))) as [Hs | Hs].
  { pose proof (recover_sender_bad_s chain_id tx log Hr Hs) as E.
    assert (Hnot : ~ 0 < tx_s tx <= SECP256K1N / 2).
    { intro H. apply s_check_spec in H. congruence. }
    rewrite E. cbn [snd].
    split; [| split; [| split]]; intros; try reflexivity; contradiction. }
  pose proof (proj1 (s_check_spec _) Hs) as Hs'.
  destruct (tx_y_parity tx) as [y |] eqn:Hy.
  - destruct (bool_true_or_false (negb ((y =? 0) || (y =? 1))))
      as [Hbad | Hgood].
    + pose proof (recover_sender_bad_y_parity chain_id tx y log Hr Hs Hy Hbad)
        as E.
      assert (Hnot : ~ (y = 0 \/ y = 1)).
      { intro H. apply y_parity_check_spec in H. congruence. }
      rewrite E. cbn [snd].
      split; [| split; [| split]]; intros; try reflexivity; contradiction.
    + pose proof (proj1 (y_parity_check_spec _) Hgood) as Hy'.
      split; [| split; [| split]]; intros; try contradiction; auto.
  - split; [| split; [| split]]; intros; try contradiction; auto.
Qed.

(** C4.  For a legacy transaction whose [r] and [s] are in range: when [v]
    is 27 or 28 the curve is called on the pre-EIP-155 signing hash with
    recovery id [v - 27]; otherwise, when [v] is [35 + 2 * chain_id] or
    [36 + 2 * chain_id], it is called on the EIP-155 signing hash with
    recovery id [v - 35 - 2 * chain_id]; any other [v] raises
    [InvalidSignatureError "bad v"] without a call.  The pre-EIP-155 hash
    is keccak256 of the RLP encoding of the six signing fields; the EIP-155
    hash is that of the same list with [chain_id, 0, 0] appended. *)
Theorem recover_sender_legacy
  (chain_id : Z) (tx : LegacyTransaction.t) (log : list Call) :
  let r := LegacyTransaction.r tx in
  let s := LegacyTransaction.s tx in
  let v := LegacyTransaction.v tx in
  let recovered (recovery_id : Z) (msg_hash : Bytes) :=
    (rbind (secp256k1_recover r s recovery_id msg_hash)
       (fun public_key => Address (slice (keccak256 public_key) 12 32)),
     log ++ [(r, s, recovery_id, msg_hash)]) in
  0 < r < SECP256K1N ->
  0 < s <= SECP256K1N / 2 ->
  (v = 27 \/ v = 28 ->
   recover_sender chain_id (Legacy tx) log
   = recovered (v - 27) (signing_hash_pre155 tx))
  /\ (v <> 27 -> v <> 28 ->
      v = 35 + 2 * chain_id \/ v = 36 + 2 * chain_id ->
      recover_sender chain_id (Legacy tx) log
      = recovered (v - 35 - 2 * chain_id) (signing_hash_155 tx chain_id))
  /\ (v <> 27 -> v <> 28 ->
      v <> 35 + 2 * chain_id -> v <> 36 + 2 * chain_id ->
      recover_sender chain_id (Legacy tx) log
      = (Raise (InvalidSignatureError "bad v"), log))
  /\ (let fields :=
        [EUint (LegacyTransaction.nonce tx);
         EUint (LegacyTransaction.gas_price tx);
         EUint (LegacyTransaction.gas tx);
         EBytes (LegacyTransaction.to tx);
         EUint (LegacyTransaction.value tx);
         EBytes (LegacyTransaction.data tx)] in
      signing_hash_pre155 tx = keccak256 (rlp_encode (ESeq fields))
      /\ signing_hash_155 tx chain_id
         = keccak256
             (rlp_encode
                (ESeq (fields ++ [EUint chain_id; EUint 0; EUint 0])))).
Proof.
  cbv zeta. intros Hr Hs.
  apply r_check_spec in Hr. apply s_check_spec in Hs.
  assert (Hx2 : chain_id * 2 = 2 * chain_id) by lia.
  unfold recover_sender. cbn [tx_r tx_s]. rewrite Hr, Hs, Hx2.
  repeat split.
  - intros [Hv | Hv]; rewrite Hv; cbn [Z.eqb Pos.eqb orb];
      apply bind_call_secp256k1_recover.
  - intros H27 H28 Hv.
    apply Z.eqb_neq in H27, H28. rewrite H27, H28. cbn [orb].
    replace (negb (LegacyTransaction.v tx =? 35 + 2 * chain_id)
             && negb (LegacyTransaction.v tx =? 36 + 2 * chain_id))
      with false.
    + apply bind_call_secp256k1_recover.
    + destruct Hv as [Hv | Hv]; rewrite Hv at 1 2;
        rewrite ?Z.eqb_refl; cbn [negb andb];
        [reflexivity | now rewrite andb_false_r].
  - intros H27 H28 H35 H36.
    apply Z.eqb_neq in H27, H28, H35, H36.
    rewrite H27, H28, H35, H36. reflexivity.
Qed.

End Properties.

(** * The theorems at concrete inputs

    The reference collaborators instantiate the interfaces; the sample
    transactions meet the hypotheses of the theorems that have one. *)

Lemma recover_sender_legacy_witness :
  snd (recover_sender (rlp := Reference.rlp) (crypto := Reference.crypto)
         1 (Legacy Sample.legacy) [])
  = [(12345, 67890, 0,
      signing_hash_155 (rlp := Reference.rlp) (crypto := Reference.crypto)
        Sample.legacy 1)].
Proof.
  assert (Hr : 0 < LegacyTransaction.r Sample.legacy
               < SECP256K1N (Crypto := Reference.crypto))
    by (cbn; lia).
  assert (Hs : 0 < LegacyTransaction.s Sample.legacy
               <= SECP256K1N (Crypto := Reference.crypto) / 2)
    by (cbn; lia).
  destruct (recover_sender_legacy (rlp := Reference.rlp) 1 Sample.legacy []
              Hr Hs) as [_ [H155 _]].
  rewrite H155; [reflexivity | cbn; lia | cbn; lia | cbn; lia].
Defined.

Lemma intrinsic_gas_strictly_monotone_witness :
  fst (calculate_intrinsic_cost (evm := Reference.evm)
         (Legacy Sample.creation))
  < fst (calculate_intrinsic_cost (evm := Reference.evm)
           (tx_set_data (Legacy Sample.creation)
              (tx_data (Legacy Sample.creation) ++ [x00]))).
Proof.
  apply (intrinsic_gas_strictly_monotone (evm := Reference.evm)).
  intros _. vm_compute. discriminate.
Defined.

Lemma decode_transaction_rejects_other_bytes_witness :
  decode_transaction (rlp := Reference.rlp) (EncBytes [xc0; x80])
  = Raise (TransactionTypeError 192).
Proof.
  apply (decode_transaction_rejects_other_bytes (rlp := Reference.rlp)
           xc0 [x80]).
  vm_compute. intuition discriminate.
Defined.

(** * Boundary scenarios

    The functions run on the scenarios of the specification, with the
    reference collaborators. *)

Section Scenarios.

Let rlp := Reference.rlp.
Let crypto := Reference.crypto.
Let evm := Reference.evm.
Existing Instance rlp.
Existing Instance crypto.
Existing Instance evm.

(** A plain transfer costs the base cost, and so does its floor. *)
Example scenario_base_cost :
  calculate_intrinsic_cost
    (Legacy (LegacyTransaction.mk 0 1 21000 (repeat x00 20) 1 [] 27 1 1))
  = (21000, 21000).
Proof. reflexivity. Qed.

(** A hundred non-zero bytes: 400 tokens, the floor exceeds the intrinsic
    gas and decides the gas that [validate_transaction] asks for. *)
Example scenario_floor_dominance :
  calculate_intrinsic_cost (FeeMarket Sample.fee_market_tx) = (22600, 25000)
  /\ validate_transaction (FeeMarket Sample.fee_market_tx)
     = Ok (22600, 25000)
  /\ validate_transaction
       (FeeMarket
          (FeeMarketTransaction.mk 1 8 2 30000000000 24999 Sample.address 0
             (repeat xff 100) [] 0 12345 67890))
     = Raise (InvalidTransaction "Insufficient gas").
Proof. repeat split; vm_compute; reflexivity. Qed.

(** Two non-zero bytes of init code: 8 tokens at 4 gas, the creation cost
    and the init code cost of one word. *)
Example scenario_creation_cost :
  calculate_intrinsic_cost (Legacy Sample.creation)
  = (21000 + 8 * 4 + 32000 + init_code_cost 2, 8 * 10 + 21000).
Proof. vm_compute. reflexivity. Qed.

Example scenario_oversized_init_code :
  validate_transaction
    (Legacy
       (LegacyTransaction.mk 0 1 10000000 Bytes0 0
          (repeat x00 (Z.to_nat (2 * MAX_CODE_SIZE + 1))) 27 1 1))
  = Raise (InvalidTransaction "Code size too large").
Proof. vm_compute. reflexivity. Qed.

Example scenario_nonce_cap :
  validate_transaction
    (Legacy
       (LegacyTransaction.mk (2 ^ 64 - 1) 1 21000 Sample.address 1 [] 27 1 1))
  = Raise (InvalidTransaction "Nonce too high").
Proof. vm_compute. reflexivity. Qed.

(** Too little gas and too high a nonce: the gas check comes first. *)
Example scenario_gas_before_nonce :
  validate_transaction
    (Legacy
       (LegacyTransaction.mk (2 ^ 64 - 1) 1 20999 Sample.address 1 [] 27 1 1))
  = Raise (InvalidTransaction "Insufficient gas").
Proof. vm_compute. reflexivity. Qed.

Example scenario_unknown_tag :
  decode_transaction (EncBytes [x05; xc0])
  = Raise (TransactionTypeError 5).
Proof. reflexivity. Qed.

(** On chain 1: [v = 38] recovers with id 1, [v = 36] is rejected. *)
Example scenario_legacy_v :
  snd (recover_sender 1
         (Legacy (LegacyTransaction.mk 7 1 21000 Sample.address 1 [] 38 5 6))
         [])
  = [(5, 6, 1,
      signing_hash_155
        (LegacyTransaction.mk 7 1 21000 Sample.address 1 [] 38 5 6) 1)]
  /\ recover_sender 1
       (Legacy (LegacyTransaction.mk 7 1 21000 Sample.address 1 [] 36 5 6))
       []
     = (Raise (InvalidSignatureError "bad v"), []).
Proof. split; vm_compute; reflexivity. Qed.

(** [s] just above half the curve order is rejected, [s] at half the order
    is not. *)
Example scenario_malleable_s :
  recover_sender 1
    (Legacy
       (LegacyTransaction.mk 7 1 21000 Sample.address 1 [] 27 5
          (SECP256K1N / 2 + 1)))
    []
  = (Raise (InvalidSignatureError "bad s"), [])
  /\ List.length
       (snd (recover_sender 1
               (Legacy
                  (LegacyTransaction.mk 7 1 21000 Sample.address 1 [] 27 5
                     (SECP256K1N / 2)))
               []))
     = 1%nat.
Proof. split; vm_compute; reflexivity. Qed.

(** The envelope round trip on one transaction of each class. *)
Example scenario_round_trip :
  decode_transaction (encode_transaction (Legacy Sample.legacy))
  = Ok (Legacy Sample.legacy)
  /\ decode_transaction (encode_transaction (AccessList Sample.access_list_tx))
     = Ok (AccessList Sample.access_list_tx)
  /\ decode_transaction (encode_transaction (FeeMarket Sample.fee_market_tx))
     = Ok (FeeMarket Sample.fee_market_tx)
  /\ decode_transaction (encode_transaction (Blob Sample.blob_tx))
     = Ok (Blob Sample.blob_tx).
Proof. repeat split; vm_compute; reflexivity. Qed.

(** A Blob envelope under the SetCode tag does not decode: the field
    counts differ. *)
Example scenario_wrong_tag :
  decode_transaction
    (EncBytes (x04 :: rlp_encode (BlobTransaction.to_extended Sample.blob_tx)))
  = Raise DecodingError.
Proof. vm_compute. reflexivity. Qed.

End Scenarios.

(** * Further properties

    What the functions guarantee beyond the statements above: bounds and
    composition laws of the gas calculator, what a successful validation
    implies, how the envelope separates the classes, what the signing
    hashes cover, and what sender recovery passes to the curve. *)

Section FurtherProperties.

Context {rlp : RLP} {crypto : Crypto} {evm : EVM}.

(** ** Intrinsic gas *)

Lemma len_cons {A : Type} (a : A) (l : list A) : len (a :: l) = 1 + len l.
Proof. unfold len. cbn [List.length]. lia. Qed.

Lemma Zsum_app (l l' : list Z) : Zsum (l ++ l') = Zsum l + Zsum l'.
Proof.
  unfold Zsum. induction l as [| x l IH]; cbn [app fold_right]; lia.
Qed.

Lemma tokens_in_calldata_count (data : Bytes) :
  count_zero_bytes data + (len data - count_zero_bytes data) * 4
  = tokens_in_calldata data.
Proof.
  unfold tokens_in_calldata, Zsum.
  induction data as [| b data IH].
  - reflexivity.
  - change (b :: data) with ([b] ++ data) at 1 2 3.
    rewrite count_zero_bytes_app, len_app.
    change (len [b]) with 1. cbn [map fold_right].
    rewrite <- IH.
    assert (Hb : count_zero_bytes [b] = if byte_val b =? 0 then 1 else 0).
    { unfold count_zero_bytes. cbn [fold_left].
      now destruct (byte_val b =? 0). }
    rewrite Hb. destruct (byte_val b =? 0); lia.
Qed.

Lemma tokens_in_calldata_bounds (data : Bytes) :
  len data <= tokens_in_calldata data <= 4 * len data.
Proof.
  rewrite <- tokens_in_calldata_count.
  pose proof (count_zero_bytes_bounds data). lia.
Qed.

(** The gas calculator through the accessors of the union. *)
Lemma calculate_intrinsic_cost_by_fields (tx : Transaction) :
  calculate_intrinsic_cost tx
  = (21000 + tokens_in_calldata (tx_data tx) * 4
     + (if Bytes_eqb (tx_to tx) Bytes0
        then 32000 + init_code_cost (ulen (tx_data tx)) else 0)
     + match tx_access_list tx with
       | Some l => access_list_loop l
       | None => 0
       end
     + match tx_authorizations tx with
       | Some l => PER_EMPTY_ACCOUNT_COST * len l
       | None => 0
       end,
     tokens_in_calldata (tx_data tx) * 10 + 21000).
Proof.
  unfold calculate_intrinsic_cost. rewrite tokens_in_calldata_count.
  unfold TX_BASE_COST, FLOOR_CALLDATA_COST, STANDARD_CALLDATA_TOKEN_COST,
    TX_CREATE_COST.
  destruct tx as [t | t | t | t | t];
    cbn [tx_access_list tx_authorizations]; f_equal; lia.
Qed.

Lemma tx_access_list_set_data (tx : Transaction) (d : Bytes) :
  tx_access_list (tx_set_data tx d) = tx_access_list tx.
Proof. now destruct tx. Qed.

Lemma tx_authorizations_set_data (tx : Transaction) (d : Bytes) :
  tx_authorizations (tx_set_data tx d) = tx_authorizations tx.
Proof. now destruct tx. Qed.

Lemma tokens_in_calldata_permutation (d d' : Bytes) :
  Permutation d d' -> tokens_in_calldata d = tokens_in_calldata d'.
Proof.
  unfold tokens_in_calldata, Zsum.
  induction 1; cbn [map fold_right]; lia.
Qed.

(** X1.  The gas calculator does not look at the order of the calldata
    bytes: a transaction whose calldata is a permutation of another's, all
    else equal, has the same intrinsic gas and the same floor. *)
Theorem calculate_intrinsic_cost_permutation
  (tx : Transaction) (data' : Bytes) :
  Permutation (tx_data tx) data' ->
  calculate_intrinsic_cost (tx_set_data tx data')
  = calculate_intrinsic_cost tx.
Proof.
  intro Hperm. rewrite !calculate_intrinsic_cost_by_fields.
  rewrite tx_data_set_data, tx_to_set_data, tx_access_list_set_data,
    tx_authorizations_set_data.
  rewrite <- (tokens_in_calldata_permutation _ _ Hperm).
  unfold ulen. now rewrite <- (Permutation_length Hperm).
Qed.

(** X2.  For a message call, one more calldata byte costs exactly one token
    if it is zero and four tokens otherwise: 4 resp. 16 more intrinsic gas,
    10 resp. 40 more floor gas. *)
Theorem calldata_append_cost (tx : Transaction) (b : byte) :
  tx_to tx <> Bytes0 ->
  let tokens := if byte_val b =? 0 then 1 else 4 in
  calculate_intrinsic_cost (tx_set_data tx (tx_data tx ++ [b]))
  = (fst (calculate_intrinsic_cost tx) + 4 * tokens,
     snd (calculate_intrinsic_cost tx) + 10 * tokens).
Proof.
  intro Hto. cbv zeta. rewrite !calculate_intrinsic_cost_by_fields.
  rewrite tx_data_set_data, tx_to_set_data, tx_access_list_set_data,
    tx_authorizations_set_data.
  rewrite Bytes_eqb_Bytes0. unfold Bytes0 in Hto.
  destruct (tx_to tx) as [| c to']; [contradiction |].
  unfold tokens_in_calldata. rewrite map_app, Zsum_app.
  cbn [map fst snd]. unfold Zsum at 2 4. cbn [fold_right].
  f_equal; lia.
Qed.

Lemma access_list_loop_insert (l1 l2 : list Access.t) (a : Access.t) :
  access_list_loop (l1 ++ a :: l2)
  = access_list_loop (l1 ++ l2) + 2400 + 1900 * len (Access.slots a).
Proof.
  rewrite !access_list_loop_sum, !map_app, !Zsum_app.
  cbn [map]. change (?x :: ?l) with ([x] ++ l). rewrite Zsum_app.
  unfold Zsum at 2. cbn [fold_right]. lia.
Qed.

(** X3.  One more access list entry, anywhere in the list, adds 2400 gas
    and 1900 gas per storage key of the entry to the intrinsic gas and
    leaves the floor as it is; the entry is charged whether or not the list
    already names the account. *)
Theorem access_list_entry_cost
  (tx tx' : Transaction) (l1 l2 : list Access.t) (a : Access.t) :
  tx_access_list tx = Some (l1 ++ l2) ->
  tx_access_list tx' = Some (l1 ++ a :: l2) ->
  tx_data tx' = tx_data tx ->
  tx_to tx' = tx_to tx ->
  tx_authorizations tx' = tx_authorizations tx ->
  calculate_intrinsic_cost tx'
  = (fst (calculate_intrinsic_cost tx)
     + 2400 + 1900 * len (Access.slots a),
     snd (calculate_intrinsic_cost tx)).
Proof.
  intros Hl Hl' Hdata Hto Hauth.
  rewrite !calculate_intrinsic_cost_by_fields.
  rewrite Hl, Hl', Hdata, Hto, Hauth, access_list_loop_insert.
  cbn [fst snd]. f_equal. lia.
Qed.

(** X4.  The floor is at least the intrinsic gas for a message call that
    carries no access list entry and no authorization, and the two are equal
    only for empty calldata: for such a transaction the gas that
    [validate_transaction] asks for is the floor. *)
Theorem plain_call_gas_is_floor (tx : Transaction) :
  tx_to tx <> Bytes0 ->
  tx_access_list tx = None \/ tx_access_list tx = Some [] ->
  tx_authorizations tx = None \/ tx_authorizations tx = Some [] ->
  let cost := calculate_intrinsic_cost tx in
  Z.max (fst cost) (snd cost) = snd cost
  /\ (fst cost = snd cost <-> tx_data tx = []).
Proof.
  intros Hto Hal Hauth. cbv zeta.
  rewrite calculate_intrinsic_cost_by_fields. cbn [fst snd].
  rewrite Bytes_eqb_Bytes0. unfold Bytes0 in Hto.
  destruct (tx_to tx) as [| c to']; [contradiction |].
  assert (Hal0 :
    match tx_access_list tx with
    | Some l => access_list_loop l
    | None => 0
    end = 0) by (destruct Hal as [-> | ->]; reflexivity).
  assert (Hauth0 :
    match tx_authorizations tx with
    | Some l => PER_EMPTY_ACCOUNT_COST * len l
    | None => 0
    end = 0).
  { destruct Hauth as [-> | ->]; [reflexivity |].
    change (len (@nil Authorization.t)) with 0. lia. }
  rewrite Hal0, Hauth0.
  pose proof (tokens_in_calldata_bounds (tx_data tx)) as Hb.
  pose proof (len_nonneg (tx_data tx)) as Hn.
  split; [lia |]. split.
  - intro Heq. assert (Hlen : len (tx_data tx) = 0) by lia.
    destruct (tx_data tx); [reflexivity |].
    unfold len in Hlen. cbn [List.length] in Hlen. lia.
  - intros ->. reflexivity.
Qed.

(** X5.  With a non-negative [PER_EMPTY_ACCOUNT_COST] and [init_code_cost],
    the intrinsic gas is at least the base cost plus 4 gas per calldata
    byte, and at least 32000 more for a contract creation. *)
Theorem intrinsic_gas_lower_bound (tx : Transaction) :
  0 <= PER_EMPTY_ACCOUNT_COST ->
  (forall n, 0 <= n -> 0 <= init_code_cost n) ->
  21000 + 4 * len (tx_data tx) <= fst (calculate_intrinsic_cost tx)
  /\ (tx_to tx = Bytes0 ->
      53000 + 4 * len (tx_data tx) <= fst (calculate_intrinsic_cost tx)).
Proof.
  intros Hper Hinit.
  rewrite calculate_intrinsic_cost_by_fields. cbn [fst].
  pose proof (tokens_in_calldata_bounds (tx_data tx)) as Hb.
  pose proof (Hinit (ulen (tx_data tx)) (len_nonneg _)) as Hi.
  assert (Hal :
    0 <= match tx_access_list tx with
         | Some l => access_list_loop l
         | None => 0
         end).
  { destruct (tx_access_list tx) as [l |]; [| lia].
    rewrite access_list_loop_sum. unfold Zsum.
    induction l as [| a l IH]; cbn [map fold_right]; [lia |].
    pose proof (len_nonneg (Access.slots a)). lia. }
  assert (Hauth :
    0 <= match tx_authorizations tx with
         | Some l => PER_EMPTY_ACCOUNT_COST * len l
         | None => 0
         end).
  { destruct (tx_authorizations tx) as [l |]; [| lia].
    pose proof (len_nonneg l). nia. }
  rewrite Bytes_eqb_Bytes0. unfold Bytes0.
  destruct (tx_to tx) as [| c to'].
  - split; [lia | intros _; lia].
  - split; [lia | intro H; discriminate H].
Qed.

(** X6.  One more authorization adds exactly [PER_EMPTY_ACCOUNT_COST] to the
    intrinsic gas of a SetCode transaction and nothing to the floor. *)
Theorem authorization_cost
  (tx tx' : Transaction) (l : list Authorization.t) (a : Authorization.t) :
  tx_authorizations tx = Some l ->
  tx_authorizations tx' = Some (a :: l) ->
  tx_data tx' = tx_data tx ->
  tx_to tx' = tx_to tx ->
  tx_access_list tx' = tx_access_list tx ->
  calculate_intrinsic_cost tx'
  = (fst (calculate_intrinsic_cost tx) + PER_EMPTY_ACCOUNT_COST,
     snd (calculate_intrinsic_cost tx)).
Proof.
  intros Hl Hl' Hdata Hto Hal.
  rewrite !calculate_intrinsic_cost_by_fields.
  rewrite Hl, Hl', Hdata, Hto, Hal. cbn [fst snd].
  rewrite len_cons. f_equal. lia.
Qed.

(** X7.  The calldata floor depends on nothing but the calldata: neither a
    contract creation nor the access list nor the authorizations enter it,
    and it lies between 10 and 40 gas per byte above the base cost. *)
Theorem calldata_floor_depends_on_data_only (tx tx' : Transaction) :
  tx_data tx' = tx_data tx ->
  snd (calculate_intrinsic_cost tx') = snd (calculate_intrinsic_cost tx)
  /\ 21000 + 10 * len (tx_data tx) <= snd (calculate_intrinsic_cost tx)
     <= 21000 + 40 * len (tx_data tx).
Proof.
  intro Hdata. rewrite !calculate_intrinsic_cost_by_fields. cbn [snd].
  rewrite Hdata.
  pose proof (tokens_in_calldata_bounds (tx_data tx)). lia.
Qed.

(** X8.  A contract creation costs 32000 gas and the init code cost of its
    calldata more than the message call with the same calldata, access list
    and authorizations. *)
Theorem creation_surcharge (tx tx' : Transaction) :
  tx_to tx = Bytes0 ->
  tx_to tx' <> Bytes0 ->
  tx_data tx' = tx_data tx ->
  tx_access_list tx' = tx_access_list tx ->
  tx_authorizations tx' = tx_authorizations tx ->
  fst (calculate_intrinsic_cost tx)
  = fst (calculate_intrinsic_cost tx')
    + 32000 + init_code_cost (ulen (tx_data tx)).
Proof.
  intros Hto Hto' Hdata Hal Hauth.
  rewrite !calculate_intrinsic_cost_by_fields. cbn [fst].
  rewrite Hdata, Hal, Hauth, Hto, !Bytes_eqb_Bytes0.
  unfold Bytes0 in *. destruct (tx_to tx') as [| c to']; [contradiction |].
  lia.
Qed.

(** ** Validation *)

(** X9.  What a successful validation guarantees: the returned pair is the
    one of [calculate_intrinsic_cost], [tx.gas] covers both of its
    components and is never below 21000 plus 10 per calldata byte, the
    nonce is below [2^64 - 1], and the init code of a contract creation is
    at most [2 * MAX_CODE_SIZE] bytes long. *)
Theorem validate_transaction_ok (tx : Transaction) (cost : Z * Z) :
  validate_transaction tx = Ok cost ->
  cost = calculate_intrinsic_cost tx
  /\ fst cost <= tx_gas tx
  /\ snd cost <= tx_gas tx
  /\ 21000 + 10 * len (tx_data tx) <= tx_gas tx
  /\ tx_nonce tx < 2 ^ 64 - 1
  /\ (tx_to tx = Bytes0 -> len (tx_data tx) <= 2 * MAX_CODE_SIZE).
Proof.
  unfold validate_transaction.
  pose proof (calculate_intrinsic_cost_by_fields tx) as Hcost.
  pose proof (tokens_in_calldata_bounds (tx_data tx)) as Hb.
  destruct (calculate_intrinsic_cost tx) as [intrinsic_gas floor].
  injection Hcost as _ Hfloor.
  change U64_MAX_VALUE with (2 ^ 64 - 1).
  destruct (Z.gtb_spec (Z.max intrinsic_gas floor) (tx_gas tx)) as [Hg | Hg];
    [discriminate |].
  destruct (Z.geb_spec (tx_nonce tx) (2 ^ 64 - 1)) as [Hn | Hn];
    [discriminate |].
  rewrite Bytes_eqb_Bytes0. unfold Bytes0.
  destruct (tx_to tx) as [| c to']; cbn [andb].
  - destruct (Z.gtb_spec (len (tx_data tx)) (2 * MAX_CODE_SIZE)) as [Hc | Hc];
      [discriminate |].
    intro H. injection H as <-. cbn [fst snd].
    split; [reflexivity |]. repeat split; try lia.
  - intro H. injection H as <-. cbn [fst snd].
    split; [reflexivity |]. repeat split; try lia.
    intro H. discriminate H.
Qed.

(** X10.  Raising the gas limit never invalidates a transaction: if a
    transaction is valid, so is every transaction with the same calldata,
    destination, access list, authorizations and nonce and at least as much
    gas, with the same result. *)
Theorem validate_transaction_more_gas
  (tx tx' : Transaction) (cost : Z * Z) :
  tx_data tx' = tx_data tx ->
  tx_to tx' = tx_to tx ->
  tx_access_list tx' = tx_access_list tx ->
  tx_authorizations tx' = tx_authorizations tx ->
  tx_nonce tx' = tx_nonce tx ->
  tx_gas tx <= tx_gas tx' ->
  validate_transaction tx = Ok cost ->
  validate_transaction tx' = Ok cost.
Proof.
  intros Hdata Hto Hal Hauth Hnonce Hgas.
  assert (Hcost : calculate_intrinsic_cost tx' = calculate_intrinsic_cost tx).
  { rewrite !calculate_intrinsic_cost_by_fields.
    now rewrite Hdata, Hto, Hal, Hauth. }
  unfold validate_transaction. rewrite Hcost, Hdata, Hto, Hnonce.
  destruct (calculate_intrinsic_cost tx) as [intrinsic_gas floor].
  destruct (Z.gtb_spec (Z.max intrinsic_gas floor) (tx_gas tx)) as [Hg | Hg];
    [discriminate |].
  destruct (Z.gtb_spec (Z.max intrinsic_gas floor) (tx_gas tx')) as [Hg' | _];
    [lia |].
  trivial.
Qed.

(** ** Envelope codec *)

(** X11.  A transaction decoded from a byte string is never a legacy one:
    the first byte is the tag of the class of the result, and the result is
    what the RLP codec decoded from the bytes after the tag at that
    class. *)
Theorem decode_transaction_bytes_typed (b : Bytes) (tx : Transaction) :
  decode_transaction (EncBytes b) = Ok tx ->
  exists (c : byte) (rest : Bytes),
    b = c :: rest
    /\ type_tag tx = Some c
    /\ match tx with
       | Legacy _ => False
       | AccessList t => rlp_decode_to_AccessListTransaction rest = Ok t
       | FeeMarket t => rlp_decode_to_FeeMarketTransaction rest = Ok t
       | Blob t => rlp_decode_to_BlobTransaction rest = Ok t
       | SetCode t => rlp_decode_to_SetCodeTransaction rest = Ok t
       end.
Proof.
  destruct b as [| c rest]; [discriminate |].
  unfold decode_transaction. rewrite getitem_0_cons.
  cbn [rbind slice_from skipn]. intro H. exists c, rest.
  split; [reflexivity |].
  destruct (Z.eqb_spec (byte_val c) 1) as [E | _].
  { apply (byte_val_inj c x01) in E. subst c.
    destruct (rlp_decode_to_AccessListTransaction rest) as [t |];
      [| discriminate].
    injection H as <-. split; reflexivity. }
  destruct (Z.eqb_spec (byte_val c) 2) as [E | _].
  { apply (byte_val_inj c x02) in E. subst c.
    destruct (rlp_decode_to_FeeMarketTransaction rest) as [t |];
      [| discriminate].
    injection H as <-. split; reflexivity. }
  destruct (Z.eqb_spec (byte_val c) 3) as [E | _].
  { apply (byte_val_inj c x03) in E. subst c.
    destruct (rlp_decode_to_BlobTransaction rest) as [t |];
      [| discriminate].
    injection H as <-. split; reflexivity. }
  destruct (Z.eqb_spec (byte_val c) 4) as [E | _].
  { apply (byte_val_inj c x04) in E. subst c.
    destruct (rlp_decode_to_SetCodeTransaction rest) as [t |];
      [| discriminate].
    injection H as <-. split; reflexivity. }
  discriminate.
Qed.

(** X12.  Transactions of different classes never have the same encoding,
    whatever the RLP codec produces: a legacy transaction stays a record,
    and the tag byte tells the four typed classes apart. *)
Theorem encode_transaction_separates_classes (tx tx' : Transaction) :
  encode_transaction tx = encode_transaction tx' ->
  type_tag tx = type_tag tx'.
Proof.
  destruct tx as [t | t | t | t | t], tx' as [t' | t' | t' | t' | t'];
    cbn [encode_transaction type_tag app]; intro H;
    try reflexivity; discriminate H.
Qed.

(** X13.  [encode_transaction] is injective on the transactions the RLP
    codec round-trips: two of them with the same encoding are equal. *)
Theorem encode_transaction_injective (tx tx' : Transaction) :
  rlp_round_trips tx ->
  rlp_round_trips tx' ->
  encode_transaction tx = encode_transaction tx' ->
  tx = tx'.
Proof.
  destruct tx as [t | t | t | t | t], tx' as [t' | t' | t' | t' | t'];
    cbn [rlp_round_trips encode_transaction app]; intros Ht Ht' H;
    try discriminate H; injection H as H; f_equal;
    try assumption; rewrite H in Ht; rewrite Ht in Ht';
    now injection Ht'.
Qed.

(** ** Hashes *)

(** X14.  The transaction hash and the signing hash of a transaction cover
    the same fields in the same order, under the same tag byte, up to the
    signature: the signing hash leaves out the last three fields of the
    record, which are [v] resp. [y_parity], [r] and [s]; the EIP-155 hash
    puts the chain id and two zeros in their place. *)
Theorem signing_hash_is_hash_without_signature :
  (forall (t : LegacyTransaction.t) (chain_id : Z),
     let fields := LegacyTransaction.to_extended t in
     get_transaction_hash (encode_transaction (Legacy t))
     = keccak256 (rlp_encode fields)
     /\ signing_hash_pre155 t
        = keccak256 (rlp_encode (without_signature fields))
     /\ (exists items,
           without_signature fields = ESeq items
           /\ signing_hash_155 t chain_id
              = keccak256
                  (rlp_encode
                     (ESeq (items ++ [EUint chain_id; EUint 0; EUint 0]))))
     /\ signature_of fields
        = [EUint (LegacyTransaction.v t); EUint (LegacyTransaction.r t);
           EUint (LegacyTransaction.s t)])
  /\ (forall t : AccessListTransaction.t,
        let fields := AccessListTransaction.to_extended t in
        get_transaction_hash (encode_transaction (AccessList t))
        = keccak256 (x01 :: rlp_encode fields)
        /\ signing_hash_2930 t
           = keccak256 (x01 :: rlp_encode (without_signature fields))
        /\ signature_of fields
           = [EUint (AccessListTransaction.y_parity t);
              EUint (AccessListTransaction.r t);
              EUint (AccessListTransaction.s t)])
  /\ (forall t : FeeMarketTransaction.t,
        let fields := FeeMarketTransaction.to_extended t in
        get_transaction_hash (encode_transaction (FeeMarket t))
        = keccak256 (x02 :: rlp_encode fields)
        /\ signing_hash_1559 t
           = keccak256 (x02 :: rlp_encode (without_signature fields))
        /\ signature_of fields
           = [EUint (FeeMarketTransaction.y_parity t);
              EUint (FeeMarketTransaction.r t);
              EUint (FeeMarketTransaction.s t)])
  /\ (forall t : BlobTransaction.t,
        let fields := BlobTransaction.to_extended t in
        get_transaction_hash (encode_transaction (Blob t))
        = keccak256 (x03 :: rlp_encode fields)
        /\ signing_hash_4844 t
           = keccak256 (x03 :: rlp_encode (without_signature fields))
        /\ signature_of fields
           = [EUint (BlobTransaction.y_parity t);
              EUint (BlobTransaction.r t);
              EUint (BlobTransaction.s t)])
  /\ (forall t : SetCodeTransaction.t,
        let fields := SetCodeTransaction.to_extended t in
        get_transaction_hash (encode_transaction (SetCode t))
        = keccak256 (x04 :: rlp_encode fields)
        /\ signing_hash_7702 t
           = keccak256 (x04 :: rlp_encode (without_signature fields))
        /\ signature_of fields
           = [EUint (SetCodeTransaction.y_parity t);
              EUint (SetCodeTransaction.r t);
              EUint (SetCodeTransaction.s t)]).
Proof.
  split; [| split; [| split; [| split]]]; intros; cbv zeta.
  - split; [reflexivity |]. split; [reflexivity |].
    split; [| reflexivity]. eexists. split; reflexivity.
  - repeat split.
  - repeat split.
  - repeat split.
  - repeat split.
Qed.

(** ** Sender recovery *)

(** The two ways [recover_sender] can go: a failed signature check, with
    the log untouched, or one call to the curve with recovery id 0 or 1
    whose outcome decides the result. *)
Lemma recover_sender_cases (chain_id : Z) (tx : Transaction) (log : list Call) :
  (exists reason : string,
     In reason ["bad r"; "bad s"; "bad v"; "bad y_parity"]%string
     /\ recover_sender chain_id tx log
        = (Raise (InvalidSignatureError reason), log))
  \/ (exists (v : Z) (msg_hash : Bytes),
        (v = 0 \/ v = 1)
        /\ 0 < tx_r tx < SECP256K1N
        /\ 0 < tx_s tx <= SECP256K1N / 2
        /\ recover_sender chain_id tx log
           = (rbind (secp256k1_recover (tx_r tx) (tx_s tx) v msg_hash)
                (fun public_key =>
                   Address (slice (keccak256 public_key) 12 32)),
              log ++ [(tx_r tx, tx_s tx, v, msg_hash)])).
Proof.
  destruct (bool_true_or_false
              ((0 >=? tx_r tx) || (tx_r tx >=? SECP256K1N))) as [Hr | Hr].
  { left. exists "bad r"%string. split; [cbn [In]; auto |].
    now apply recover_sender_bad_r. }
  destruct (bool_true_or_false
              ((0 >=? tx_s tx) || (tx_s tx >? SECP256K1N / 2))) as [Hs | Hs].
  { left. exists "bad s"%string. split; [cbn [In]; auto |].
    now apply recover_sender_bad_s. }
  pose proof (proj1 (r_check_spec _) Hr) as Hr'.
  pose proof (proj1 (s_check_spec _) Hs) as Hs'.
  destruct (tx_y_parity tx) as [y |] eqn:Hy.
  - destruct (bool_true_or_false (negb ((y =? 0) || (y =? 1))))
      as [Hbad | Hgood].
    + left. exists "bad y_parity"%string. split; [cbn [In]; auto |].
      now apply (recover_sender_bad_y_parity chain_id tx y).
    + pose proof (proj1 (y_parity_check_spec _) Hgood) as Hy'.
      right. eexists y, _. split; [exact Hy' |]. split; [exact Hr' |].
      split; [exact Hs' |].
      exact (recover_sender_typed chain_id tx y log Hr' Hs' Hy Hy').
  - destruct tx as [t | t | t | t | t]; try discriminate Hy.
    cbn [tx_r tx_s] in *. unfold recover_sender. cbn [tx_r tx_s].
    rewrite Hr, Hs.
    destruct ((LegacyTransaction.v t =? 27) || (LegacyTransaction.v t =? 28))
      eqn:Hpre.
    + right. eexists (LegacyTransaction.v t - 27), _.
      split; [| split; [exact Hr' | split; [exact Hs' |]]].
      * apply orb_true_iff in Hpre.
        destruct Hpre as [E | E]; apply Z.eqb_eq in E; lia.
      * apply bind_call_secp256k1_recover.
    + destruct (negb (LegacyTransaction.v t =? 35 + chain_id * 2)
                && negb (LegacyTransaction.v t =? 36 + chain_id * 2))
        eqn:Hbad.
      * left. exists "bad v"%string. split; [cbn [In]; auto 6 | reflexivity].
      * right. eexists (LegacyTransaction.v t - 35 - chain_id * 2), _.
        split; [| split; [exact Hr' | split; [exact Hs' |]]].
        -- apply andb_false_iff in Hbad.
           destruct Hbad as [E | E]; apply negb_false_iff, Z.eqb_eq in E; lia.
        -- apply bind_call_secp256k1_recover.
Qed.

(** X15.  [recover_sender] calls [secp256k1_recover] at most once.  The
    call, if any, is appended to the log and carries the [r] and [s] of the
    transaction, both in range, a recovery id that is 0 or 1, and the
    signing hash of the transaction: for a typed transaction [y_parity] and
    the hash of its class; for a legacy transaction [v - 27] and the
    pre-EIP-155 hash when [v] is 27 or 28, and otherwise
    [v - 35 - chain_id * 2] and the EIP-155 hash for the given chain id. *)
Theorem recover_sender_calls
  (chain_id : Z) (tx : Transaction) (log : list Call) :
  let recovery_id :=
    match tx with
    | Legacy t =>
        if (LegacyTransaction.v t =? 27) || (LegacyTransaction.v t =? 28)
        then LegacyTransaction.v t - 27
        else LegacyTransaction.v t - 35 - chain_id * 2
    | AccessList t => AccessListTransaction.y_parity t
    | FeeMarket t => FeeMarketTransaction.y_parity t
    | Blob t => BlobTransaction.y_parity t
    | SetCode t => SetCodeTransaction.y_parity t
    end in
  let msg_hash :=
    match tx with
    | Legacy t =>
        if (LegacyTransaction.v t =? 27) || (LegacyTransaction.v t =? 28)
        then signing_hash_pre155 t
        else signing_hash_155 t chain_id
    | AccessList t => signing_hash_2930 t
    | FeeMarket t => signing_hash_1559 t
    | Blob t => signing_hash_4844 t
    | SetCode t => signing_hash_7702 t
    end in
  snd (recover_sender chain_id tx log) = log
  \/ (snd (recover_sender chain_id tx log)
      = log ++ [(tx_r tx, tx_s tx, recovery_id, msg_hash)]
      /\ (recovery_id = 0 \/ recovery_id = 1)
      /\ 0 < tx_r tx < SECP256K1N
      /\ 0 < tx_s tx <= SECP256K1N / 2).
Proof.
  cbv zeta.
  destruct (bool_true_or_false
              ((0 >=? tx_r tx) || (tx_r tx >=? SECP256K1N))) as [Hr | Hr].
  { left. now rewrite (recover_sender_bad_r chain_id tx log Hr). }
  destruct (bool_true_or_false
              ((0 >=? tx_s tx) || (tx_s tx >? SECP256K1N / 2))) as [Hs | Hs].
  { left. now rewrite (recover_sender_bad_s chain_id tx log Hr Hs). }
  pose proof (proj1 (r_check_spec _) Hr) as Hr'.
  pose proof (proj1 (s_check_spec _) Hs) as Hs'.
  assert (Htyped :
    forall y, tx_y_parity tx = Some y ->
      snd (recover_sender chain_id tx log) = log
      \/ (snd (recover_sender chain_id tx log)
          = log ++ [(tx_r tx, tx_s tx, y,
                     match tx with
                     | Legacy t => signing_hash_pre155 t
                     | AccessList t => signing_hash_2930 t
                     | FeeMarket t => signing_hash_1559 t
                     | Blob t => signing_hash_4844 t
                     | SetCode t => signing_hash_7702 t
                     end)]
          /\ (y = 0 \/ y = 1))).
  { intros y Hy.
    destruct (bool_true_or_false (negb ((y =? 0) || (y =? 1))))
      as [Hbad | Hgood].
    - left.
      now rewrite (recover_sender_bad_y_parity chain_id tx y log Hr Hs Hy Hbad).
    - pose proof (proj1 (y_parity_check_spec _) Hgood) as Hy'.
      right.
      rewrite (recover_sender_typed chain_id tx y log Hr' Hs' Hy Hy').
      split; [reflexivity | exact Hy']. }
  destruct tx as [t | t | t | t | t];
    [clear Htyped
    | destruct (Htyped _ eq_refl) as [E | [E Hy]];
      [left; exact E | right; split; [exact E | auto]] ..].
  cbn [tx_r tx_s] in *. unfold recover_sender. cbn [tx_r tx_s].
  rewrite Hr, Hs.
  destruct ((LegacyTransaction.v t =? 27) || (LegacyTransaction.v t =? 28))
    eqn:Hpre.
  - right. rewrite bind_call_secp256k1_recover. cbn [snd].
    split; [reflexivity |]. split; [| auto].
    apply orb_true_iff in Hpre.
    destruct Hpre as [E | E]; apply Z.eqb_eq in E; lia.
  - destruct (negb (LegacyTransaction.v t =? 35 + chain_id * 2)
              && negb (LegacyTransaction.v t =? 36 + chain_id * 2))
      eqn:Hbad.
    + left. reflexivity.
    + right. rewrite bind_call_secp256k1_recover. cbn [snd].
      split; [reflexivity |]. split; [| auto].
      apply andb_false_iff in Hbad.
      destruct Hbad as [E | E]; apply negb_false_iff, Z.eqb_eq in E; lia.
Qed.

(** X16.  An address returned by [recover_sender] has 20 bytes: it is
    bytes 12 to 31 of the hash of the public key that the one call to the
    curve returned. *)
Theorem recover_sender_address
  (chain_id : Z) (tx : Transaction) (log : list Call) (sender : Bytes) :
  fst (recover_sender chain_id tx log) = Ok sender ->
  List.length sender = 20%nat
  /\ (exists (v : Z) (msg_hash public_key : Bytes),
        snd (recover_sender chain_id tx log)
        = log ++ [(tx_r tx, tx_s tx, v, msg_hash)]
        /\ secp256k1_recover (tx_r tx) (tx_s tx) v msg_hash = Ok public_key
        /\ sender = slice (keccak256 public_key) 12 32).
Proof.
  destruct (recover_sender_cases chain_id tx log)
    as [(reason & _ & E) | (v & msg_hash & Hv & Hr & Hs & E)]; rewrite E;
    cbn [fst snd]; [discriminate |].
  destruct (secp256k1_recover (tx_r tx) (tx_s tx) v msg_hash)
    as [public_key | e] eqn:Hrec; cbn [rbind]; [| discriminate].
  unfold Address.
  destruct (Nat.eqb (List.length (slice (keccak256 public_key) 12 32)) 20)
    eqn:Hlen; [| discriminate].
  intro H. injection H as <-. apply Nat.eqb_eq in Hlen.
  split; [exact Hlen |]. exists v, msg_hash, public_key. auto.
Qed.

Lemma length_slice_12_32 (h : Bytes) :
  List.length h = 32%nat -> List.length (slice h 12 32) = 20%nat.
Proof.
  intro H. unfold slice. rewrite length_skipn, length_firstn, H.
  reflexivity.
Qed.

(** X17.  With a hash of 32 bytes, [recover_sender] raises nothing of its
    own but [InvalidSignatureError], with one of four reasons and before any
    call to the curve; any other exception is one that [secp256k1_recover]
    raised.  In particular the [Address] constructor never fails. *)
Theorem recover_sender_exceptions
  (chain_id : Z) (tx : Transaction) (log : list Call) (e : exception) :
  (forall b : Bytes, List.length (keccak256 b) = 32%nat) ->
  fst (recover_sender chain_id tx log) = Raise e ->
  (exists reason : string,
     In reason ["bad r"; "bad s"; "bad v"; "bad y_parity"]%string
     /\ e = InvalidSignatureError reason
     /\ snd (recover_sender chain_id tx log) = log)
  \/ (exists (v : Z) (msg_hash : Bytes),
        secp256k1_recover (tx_r tx) (tx_s tx) v msg_hash = Raise e
        /\ snd (recover_sender chain_id tx log)
           = log ++ [(tx_r tx, tx_s tx, v, msg_hash)]).
Proof.
  intro Hhash.
  destruct (recover_sender_cases chain_id tx log)
    as [(reason & Hin & E) | (v & msg_hash & Hv & Hr & Hs & E)]; rewrite E;
    cbn [fst snd].
  - intro H. injection H as <-. left. exists reason. auto.
  - destruct (secp256k1_recover (tx_r tx) (tx_s tx) v msg_hash)
      as [public_key | e'] eqn:Hrec; cbn [rbind].
    + unfold Address.
      rewrite (length_slice_12_32 _ (Hhash public_key)).
      cbn [Nat.eqb]. discriminate.
    + intro H. injection H as <-. right. exists v, msg_hash. auto.
Qed.

(** X18.  An EIP-155 signature is bound to its chain: a legacy transaction
    whose [v] is [35 + 2 * chain_id] or [36 + 2 * chain_id] for a chain id
    that is not negative is rejected with "bad v", without a call to the
    curve, when the sender is recovered for any other chain id. *)
Theorem eip155_signature_bound_to_chain
  (chain_id chain_id' : Z) (tx : LegacyTransaction.t) (log : list Call) :
  0 <= chain_id ->
  chain_id' <> chain_id ->
  0 < LegacyTransaction.r tx < SECP256K1N ->
  0 < LegacyTransaction.s tx <= SECP256K1N / 2 ->
  LegacyTransaction.v tx = 35 + 2 * chain_id
  \/ LegacyTransaction.v tx = 36 + 2 * chain_id ->
  recover_sender chain_id' (Legacy tx) log
  = (Raise (InvalidSignatureError "bad v"), log).
Proof.
  intros Hpos Hne Hr Hs Hv.
  apply r_check_spec in Hr. apply s_check_spec in Hs.
  unfold recover_sender. cbn [tx_r tx_s]. rewrite Hr, Hs.
  assert (H27 : (LegacyTransaction.v tx =? 27) = false)
    by (apply Z.eqb_neq; lia).
  assert (H28 : (LegacyTransaction.v tx =? 28) = false)
    by (apply Z.eqb_neq; lia).
  assert (H35 : (LegacyTransaction.v tx =? 35 + chain_id' * 2) = false)
    by (apply Z.eqb_neq; lia).
  assert (H36 : (LegacyTransaction.v tx =? 36 + chain_id' * 2) = false)
    by (apply Z.eqb_neq; lia).
  rewrite H27, H28, H35, H36. reflexivity.
Qed.

(** X19.  The chain id given to [recover_sender] is used for nothing but
    the EIP-155 form of a legacy signature: for a typed transaction, whose
    own [chain_id] field is not compared with it, and for a legacy
    transaction with [v] 27 or 28, the outcome and the call to the curve are
    the same for every chain id. *)
Theorem recover_sender_chain_id_unused
  (chain_id chain_id' : Z) (tx : Transaction) (log : list Call) :
  match tx with
  | Legacy t => LegacyTransaction.v t = 27 \/ LegacyTransaction.v t = 28
  | _ => True
  end ->
  recover_sender chain_id tx log = recover_sender chain_id' tx log.
Proof.
  destruct tx as [t | t | t | t | t]; intro H; try reflexivity.
  unfold recover_sender. destruct H as [H | H]; rewrite H; reflexivity.
Qed.

(** X20.  The second signature of the same key on the same message is
    rejected: for an odd curve order, when [s] passes the check on [s], the
    mirrored value [SECP256K1N - s] fails it, and a transaction carrying it
    raises "bad s" without a call to the curve. *)
Theorem mirrored_signature_rejected
  (chain_id : Z) (tx tx' : Transaction) (log : list Call) :
  Z.odd SECP256K1N = true ->
  0 < tx_s tx <= SECP256K1N / 2 ->
  tx_s tx' = SECP256K1N - tx_s tx ->
  0 < tx_r tx' < SECP256K1N ->
  recover_sender chain_id tx' log
  = (Raise (InvalidSignatureError "bad s"), log).
Proof.
  intros Hodd Hs Hmirror Hr.
  apply recover_sender_bad_s; [now apply r_check_spec |].
  apply orb_true_iff. right. apply Z.gtb_lt.
  pose proof (Z.div_mod SECP256K1N 2 ltac:(lia)) as Hdiv.
  rewrite Zmod_odd, Hodd in Hdiv. lia.
Qed.

End FurtherProperties.

(** * The further properties at concrete inputs *)

Lemma calculate_intrinsic_cost_permutation_witness :
  calculate_intrinsic_cost (evm := Reference.evm)
    (tx_set_data (Legacy Sample.creation) [x01; x60])
  = calculate_intrinsic_cost (evm := Reference.evm) (Legacy Sample.creation).
Proof.
  apply (calculate_intrinsic_cost_permutation (evm := Reference.evm)
           (Legacy Sample.creation) [x01; x60]).
  apply perm_swap.
Defined.

Lemma calldata_append_cost_witness :
  calculate_intrinsic_cost (evm := Reference.evm)
    (tx_set_data (AccessList Sample.access_list_tx)
       (tx_data (AccessList Sample.access_list_tx) ++ [x00]))
  = (fst (calculate_intrinsic_cost (evm := Reference.evm)
            (AccessList Sample.access_list_tx)) + 4 * 1,
     snd (calculate_intrinsic_cost (evm := Reference.evm)
            (AccessList Sample.access_list_tx)) + 10 * 1).
Proof.
  apply (calldata_append_cost (evm := Reference.evm)
           (AccessList Sample.access_list_tx) x00).
  vm_compute. discriminate.
Defined.

Lemma access_list_entry_cost_witness :
  calculate_intrinsic_cost (evm := Reference.evm)
    (AccessList Sample.access_list_tx)
  = (fst (calculate_intrinsic_cost (evm := Reference.evm)
            (AccessList
               (AccessListTransaction.set_access_list Sample.access_list_tx
                  [Access.mk Sample.address []])))
     + 2400 + 1900 * 2,
     snd (calculate_intrinsic_cost (evm := Reference.evm)
            (AccessList
               (AccessListTransaction.set_access_list Sample.access_list_tx
                  [Access.mk Sample.address []])))).
Proof.
  apply (access_list_entry_cost (evm := Reference.evm)
           (AccessList
              (AccessListTransaction.set_access_list Sample.access_list_tx
                 [Access.mk Sample.address []]))
           (AccessList Sample.access_list_tx)
           [] [Access.mk Sample.address []]
           (Access.mk Sample.address [Sample.slot; Sample.slot]));
    reflexivity.
Defined.

Lemma authorization_cost_witness :
  calculate_intrinsic_cost (evm := Reference.evm)
    (SetCode Sample.set_code_tx)
  = (fst (calculate_intrinsic_cost (evm := Reference.evm)
            (SetCode
               (SetCodeTransaction.mk 1 10 2 30000000000 200000
                  Sample.address 0 [xab] Sample.access_list
                  [Sample.authorization] 0 12345 67890)))
     + 25000,
     snd (calculate_intrinsic_cost (evm := Reference.evm)
            (SetCode
               (SetCodeTransaction.mk 1 10 2 30000000000 200000
                  Sample.address 0 [xab] Sample.access_list
                  [Sample.authorization] 0 12345 67890)))).
Proof.
  apply (authorization_cost (evm := Reference.evm)
           (SetCode
              (SetCodeTransaction.mk 1 10 2 30000000000 200000
                 Sample.address 0 [xab] Sample.access_list
                 [Sample.authorization] 0 12345 67890))
           (SetCode Sample.set_code_tx)
           [Sample.authorization] Sample.authorization);
    reflexivity.
Defined.

Lemma plain_call_gas_is_floor_witness :
  Z.max
    (fst (calculate_intrinsic_cost (evm := Reference.evm)
            (FeeMarket Sample.fee_market_tx)))
    (snd (calculate_intrinsic_cost (evm := Reference.evm)
            (FeeMarket Sample.fee_market_tx)))
  = 25000.
Proof.
  destruct (plain_call_gas_is_floor (evm := Reference.evm)
              (FeeMarket Sample.fee_market_tx)) as [Hmax _].
  - vm_compute. discriminate.
  - right. reflexivity.
  - left. reflexivity.
  - rewrite Hmax. reflexivity.
Defined.

Lemma intrinsic_gas_lower_bound_witness :
  53000 + 4 * 2
  <= fst (calculate_intrinsic_cost (evm := Reference.evm)
            (Legacy Sample.creation)).
Proof.
  apply (intrinsic_gas_lower_bound (evm := Reference.evm)
           (Legacy Sample.creation)).
  - vm_compute. discriminate.
  - intros n Hn. cbn [init_code_cost Reference.evm].
    apply Z.mul_nonneg_nonneg; [lia | apply Z.div_pos; lia].
  - reflexivity.
Defined.

Lemma calldata_floor_depends_on_data_only_witness :
  snd (calculate_intrinsic_cost (evm := Reference.evm) (Blob Sample.blob_tx))
  = snd (calculate_intrinsic_cost (evm := Reference.evm)
           (Legacy Sample.legacy)).
Proof.
  apply (calldata_floor_depends_on_data_only (evm := Reference.evm)
           (Legacy Sample.legacy) (Blob Sample.blob_tx)).
  reflexivity.
Defined.

Lemma creation_surcharge_witness :
  fst (calculate_intrinsic_cost (evm := Reference.evm)
         (Legacy Sample.creation))
  = fst (calculate_intrinsic_cost (evm := Reference.evm)
           (Legacy
              (LegacyTransaction.mk 0 1000000000 100000 Sample.address 0
                 [x60; x01] 27 12345 67890)))
    + 32000 + 2.
Proof.
  apply (creation_surcharge (evm := Reference.evm)
           (Legacy Sample.creation)
           (Legacy
              (LegacyTransaction.mk 0 1000000000 100000 Sample.address 0
                 [x60; x01] 27 12345 67890))).
  - reflexivity.
  - vm_compute. discriminate.
  - reflexivity.
  - reflexivity.
  - reflexivity.
Defined.

Lemma validate_transaction_ok_witness :
  25000 <= tx_gas (FeeMarket Sample.fee_market_tx)
  /\ tx_nonce (FeeMarket Sample.fee_market_tx) < 2 ^ 64 - 1.
Proof.
  destruct (validate_transaction_ok (evm := Reference.evm)
              (FeeMarket Sample.fee_market_tx) (22600, 25000))
    as (_ & _ & Hfloor & _ & Hnonce & _).
  - vm_compute. reflexivity.
  - split; [exact Hfloor | exact Hnonce].
Defined.

Lemma validate_transaction_more_gas_witness :
  validate_transaction (evm := Reference.evm)
    (FeeMarket
       (FeeMarketTransaction.mk 1 8 2 30000000000 30000 Sample.address 0
          (repeat xff 100) [] 0 12345 67890))
  = Ok (22600, 25000).
Proof.
  apply (validate_transaction_more_gas (evm := Reference.evm)
           (FeeMarket Sample.fee_market_tx)); try reflexivity.
  vm_compute. discriminate.
Defined.

Lemma decode_transaction_bytes_typed_witness :
  exists (c : byte) (rest : Bytes),
    x01 :: rlp_encode (RLP := Reference.rlp)
             (AccessListTransaction.to_extended Sample.access_list_tx)
    = c :: rest
    /\ type_tag (AccessList Sample.access_list_tx) = Some c
    /\ rlp_decode_to_AccessListTransaction (RLP := Reference.rlp) rest
       = Ok Sample.access_list_tx.
Proof.
  apply (decode_transaction_bytes_typed (rlp := Reference.rlp)
           (x01 :: rlp_encode (RLP := Reference.rlp)
                     (AccessListTransaction.to_extended Sample.access_list_tx))
           (AccessList Sample.access_list_tx)).
  vm_compute. reflexivity.
Defined.

Lemma encode_transaction_separates_classes_witness :
  type_tag (Blob Sample.blob_tx) = type_tag (Blob Sample.blob_tx).
Proof.
  apply (encode_transaction_separates_classes (rlp := Reference.rlp)
           (Blob Sample.blob_tx) (Blob Sample.blob_tx)).
  reflexivity.
Defined.

Lemma encode_transaction_injective_witness :
  SetCode Sample.set_code_tx = SetCode Sample.set_code_tx.
Proof.
  apply (encode_transaction_injective (rlp := Reference.rlp)
           (SetCode Sample.set_code_tx) (SetCode Sample.set_code_tx)).
  - vm_compute. reflexivity.
  - vm_compute. reflexivity.
  - reflexivity.
Defined.

Lemma recover_sender_address_witness :
  exists sender : Bytes,
    fst (recover_sender (rlp := Reference.rlp) (crypto := Reference.crypto)
           1 (Legacy Sample.legacy) [])
    = Ok sender
    /\ List.length sender = 20%nat.
Proof.
  eexists. split.
  - vm_compute. reflexivity.
  - apply (recover_sender_address (rlp := Reference.rlp)
             (crypto := Reference.crypto) 1 (Legacy Sample.legacy) []).
    vm_compute. reflexivity.
Defined.

Lemma recover_sender_exceptions_witness :
  (exists reason : string,
     In reason ["bad r"; "bad s"; "bad v"; "bad y_parity"]%string
     /\ InvalidSignatureError "bad r" = InvalidSignatureError reason
     /\ snd (recover_sender (rlp := Reference.rlp)
               (crypto := Reference.crypto) 1
               (Legacy
                  (LegacyTransaction.mk 7 1 21000 Sample.address 1 [] 27 0 1))
               [])
        = [])
  \/ (exists (v : Z) (msg_hash : Bytes),
        secp256k1_recover (Crypto := Reference.crypto) 0 1 v msg_hash
        = Raise (InvalidSignatureError "bad r")
        /\ snd (recover_sender (rlp := Reference.rlp)
                  (crypto := Reference.crypto) 1
                  (Legacy
                     (LegacyTransaction.mk 7 1 21000 Sample.address 1 [] 27
                        0 1))
                  [])
           = [] ++ [(0, 1, v, msg_hash)]).
Proof.
  apply (recover_sender_exceptions (rlp := Reference.rlp)
           (crypto := Reference.crypto) 1
           (Legacy (LegacyTransaction.mk 7 1 21000 Sample.address 1 [] 27 0 1))
           [] (InvalidSignatureError "bad r")).
  - intro b. cbn [keccak256 Reference.crypto].
    rewrite length_firstn, length_app, repeat_length. lia.
  - vm_compute. reflexivity.
Defined.

Lemma eip155_signature_bound_to_chain_witness :
  recover_sender (rlp := Reference.rlp) (crypto := Reference.crypto)
    2 (Legacy Sample.legacy) []
  = (Raise (InvalidSignatureError "bad v"), []).
Proof.
  apply (eip155_signature_bound_to_chain (rlp := Reference.rlp)
           (crypto := Reference.crypto) 1 2 Sample.legacy []).
  - lia.
  - lia.
  - cbn. lia.
  - cbn. lia.
  - left. reflexivity.
Defined.

Lemma recover_sender_chain_id_unused_witness :
  recover_sender (rlp := Reference.rlp) (crypto := Reference.crypto)
    1 (AccessList Sample.access_list_tx) []
  = recover_sender (rlp := Reference.rlp) (crypto := Reference.crypto)
      5 (AccessList Sample.access_list_tx) [].
Proof.
  apply (recover_sender_chain_id_unused (rlp := Reference.rlp)
           (crypto := Reference.crypto) 1 5
           (AccessList Sample.access_list_tx) []).
  exact I.
Defined.

Lemma mirrored_signature_rejected_witness :
  recover_sender (rlp := Reference.rlp) (crypto := Reference.crypto)
    1
    (Legacy
       (LegacyTransaction.mk 7 1000000000 21000 Sample.address 1 [] 37 12345
          (SECP256K1N (Crypto := Reference.crypto) - 67890)))
    []
  = (Raise (InvalidSignatureError "bad s"), []).
Proof.
  apply (mirrored_signature_rejected (rlp := Reference.rlp)
           (crypto := Reference.crypto) 1 (Legacy Sample.legacy)).
  - reflexivity.
  - split; [reflexivity | intro H; discriminate H].
  - reflexivity.
  - split; reflexivity.
Defined.

(** * The reference codec round-trips

    Modelled from the spec: the codec contract of section 6.2 asks that
    decoding at a class inverts encoding.  The reference codec meets it on
    every well-formed record whose encoding the length prefix can
    express. *)

Module ReferenceCodec.
Import Reference.

Lemma byte_val_byte_of_Z (n : Z) : 0 <= n < 256 -> byte_val (byte_of_Z n) = n.
Proof.
  intro H. unfold byte_of_Z, byte_val.
  destruct (Byte.of_N (Z.to_N n)) as [b |] eqn:E.
  - apply Byte.to_of_N in E. rewrite E. lia.
  - apply Byte.of_N_None_iff in E. lia.
Qed.

Lemma from_be_bytes_acc (b : Bytes) (acc : Z) :
  fold_left (fun acc x => acc * 256 + byte_val x) b acc
  = acc * 256 ^ len b + from_be_bytes b.
Proof.
  unfold from_be_bytes. revert acc.
  induction b as [| x b IH]; intro acc.
  - cbn [fold_left]. change (len (@nil byte)) with 0. lia.
  - cbn [fold_left]. rewrite IH, (IH (0 * 256 + byte_val x)).
    replace (len (x :: b)) with (len b + 1) by (unfold len; cbn [List.length]; lia).
    rewrite Z.pow_add_r by (unfold len; lia). lia.
Qed.

Lemma from_be_bytes_cons (x : byte) (b : Bytes) :
  from_be_bytes (x :: b) = byte_val x * 256 ^ len b + from_be_bytes b.
Proof.
  unfold from_be_bytes at 1. cbn [fold_left]. rewrite from_be_bytes_acc. lia.
Qed.

Lemma from_be_bytes_app (a b : Bytes) :
  from_be_bytes (a ++ b) = from_be_bytes a * 256 ^ len b + from_be_bytes b.
Proof.
  unfold from_be_bytes at 1. rewrite fold_left_app.
  now rewrite from_be_bytes_acc.
Qed.

(** With enough fuel, [to_be_bytes_aux] yields the digits of [n], most
    significant first, none if [n] is zero and no leading zero. *)
Lemma to_be_bytes_aux_spec (fuel : nat) : forall (n : Z) (acc : Bytes),
  0 <= n < 256 ^ Z.of_nat fuel ->
  exists digits,
    to_be_bytes_aux fuel n acc = digits ++ acc
    /\ from_be_bytes digits = n
    /\ (0 < n -> exists d ds, digits = d :: ds /\ byte_val d <> 0)
    /\ (n = 0 -> digits = [])
    /\ (forall k, 0 <= k -> n < 256 ^ k -> len digits <= k).
Proof.
  induction fuel as [| fuel IH]; intros n acc Hn.
  - exists []. change (256 ^ Z.of_nat 0) with 1 in Hn.
    split; [reflexivity |]. split; [cbn; lia |]. split; [lia |].
    split; [reflexivity |]. intros. change (len (@nil byte)) with 0. lia.
  - cbn [to_be_bytes_aux]. destruct (Z.leb_spec n 0) as [Hz | Hpos].
    + exists []. assert (n = 0) by lia. subst n.
      split; [reflexivity |]. split; [reflexivity |]. split; [lia |].
      split; [reflexivity |]. intros. change (len (@nil byte)) with 0. lia.
    + assert (Hdiv : 0 <= n / 256 < 256 ^ Z.of_nat fuel).
      { split; [apply Z.div_pos; lia |].
        apply Z.div_lt_upper_bound; [lia |].
        rewrite Nat2Z.inj_succ, Z.pow_succ_r in Hn by lia. lia. }
      destruct (IH (n / 256) (byte_of_Z (n mod 256) :: acc) Hdiv)
        as (ds & Heq & Hval & Hhead & Hzero & Hlen).
      exists (ds ++ [byte_of_Z (n mod 256)]).
      assert (Hmod : 0 <= n mod 256 < 256) by (apply Z.mod_pos_bound; lia).
      split; [| split; [| split; [| split]]].
      * rewrite Heq, <- app_assoc. reflexivity.
      * rewrite from_be_bytes_app, Hval. change (len [byte_of_Z (n mod 256)]) with 1.
        rewrite from_be_bytes_cons. change (len (@nil byte)) with 0.
        rewrite byte_val_byte_of_Z by lia. unfold from_be_bytes; cbn [fold_left].
        pose proof (Z.div_mod n 256). lia.
      * intros _. destruct (Z.eq_dec (n / 256) 0) as [E0 | Ene].
        -- rewrite (Hzero E0). cbn [app]. eexists _, _. split; [reflexivity |].
           rewrite byte_val_byte_of_Z by lia.
           pose proof (Z.div_mod n 256). lia.
        -- destruct Hhead as (d & ds' & -> & Hd); [lia |].
           exists d, (ds' ++ [byte_of_Z (n mod 256)]). split; [reflexivity | exact Hd].
      * lia.
      * intros k Hk Hnk. rewrite len_app. change (len [byte_of_Z (n mod 256)]) with 1.
        assert (k <> 0). { intro; subst k. change (256 ^ 0) with 1 in Hnk. lia. }
        assert (Hk1 : len ds <= k - 1).
        { apply Hlen; [lia |]. apply Z.div_lt_upper_bound; [lia |].
          replace k with (Z.succ (k - 1)) in Hnk by lia.
          rewrite Z.pow_succ_r in Hnk by lia. lia. }
        lia.
Qed.

Lemma to_be_bytes_spec (n : Z) :
  0 <= n ->
  from_be_bytes (to_be_bytes n) = n
  /\ (0 < n -> exists d ds, to_be_bytes n = d :: ds /\ byte_val d <> 0)
  /\ (n = 0 -> to_be_bytes n = [])
  /\ (forall k, 0 <= k -> n < 256 ^ k -> len (to_be_bytes n) <= k).
Proof.
  intro Hn. unfold to_be_bytes.
  assert (Hfuel : 0 <= n < 256 ^ Z.of_nat (S (Z.to_nat (Z.log2 n)))).
  { split; [lia |]. rewrite Nat2Z.inj_succ, Z2Nat.id by apply Z.log2_nonneg.
    destruct (Z.eq_dec n 0) as [-> | Hne].
    - cbn. lia.
    - pose proof (Z.log2_spec n ltac:(lia)) as [_ Hlt].
      eapply Z.lt_le_trans; [exact Hlt |].
      apply Z.pow_le_mono_l. pose proof (Z.log2_nonneg n). lia. }
  destruct (to_be_bytes_aux_spec _ n [] Hfuel)
    as (ds & Heq & Hval & Hhead & Hzero & Hlen).
  rewrite app_nil_r in Heq. rewrite Heq. auto.
Qed.

Lemma take_app (a rest : Bytes) : take (len a) (a ++ rest) = Some (a, rest).
Proof.
  unfold take. rewrite len_app.
  pose proof (len_nonneg a). pose proof (len_nonneg rest).
  replace ((0 <=? len a) && (len a <=? len a + len rest)) with true
    by (symmetry; apply andb_true_intro; split; apply Z.leb_le; lia).
  unfold len. rewrite Nat2Z.id.
  rewrite firstn_app, Nat.sub_diag, firstn_all, firstn_O, app_nil_r.
  rewrite skipn_app, Nat.sub_diag, skipn_all, skipn_O. reflexivity.
Qed.

(** The two shapes of a length prefix, as the decoder sees them. *)
Lemma with_prefix_short (offset : Z) (payload : Bytes) :
  len payload < 56 ->
  with_prefix offset payload = byte_of_Z (offset + len payload) :: payload.
Proof.
  intro H. unfold with_prefix. apply Z.ltb_lt in H. now rewrite H.
Qed.

Lemma with_prefix_long (offset : Z) (payload : Bytes) :
  56 <= len payload < 2 ^ 64 ->
  exists width_bytes,
    with_prefix offset payload
    = byte_of_Z (offset + 55 + len width_bytes) :: width_bytes ++ payload
    /\ 1 <= len width_bytes <= 8
    /\ forall rest,
         take_length (len width_bytes) (width_bytes ++ rest)
         = Some (len payload, rest).
Proof.
  intros [Hlo Hhi]. unfold with_prefix.
  replace (len payload <? 56) with false by (symmetry; apply Z.ltb_ge; lia).
  cbv zeta. exists (to_be_bytes (len payload)).
  destruct (to_be_bytes_spec (len payload) ltac:(lia))
    as (Hval & Hhead & _ & Hlen).
  destruct Hhead as (d & ds & Heq & Hd); [lia |].
  split; [reflexivity |]. split.
  - split.
    + rewrite Heq. unfold len. cbn [List.length]. lia.
    + apply Hlen; [lia |]. change (256 ^ 8) with (2 ^ 64). lia.
  - intro rest. unfold take_length. rewrite take_app. cbn [obind fst snd].
    rewrite Heq at 1. apply Z.eqb_neq in Hd. rewrite Hd. rewrite Hval.
    replace (len payload <? 56) with false by (symmetry; apply Z.ltb_ge; lia).
    reflexivity.
Qed.

Lemma Extended_induction (P : Extended -> Prop) :
  (forall b, P (EBytes b)) ->
  (forall n, P (EUint n)) ->
  (forall items, Forall P items -> P (ESeq items)) ->
  forall x, P x.
Proof.
  intros Hb Hn Hs. fix IH 1. intros [b | n | items].
  - apply Hb.
  - apply Hn.
  - apply Hs. induction items as [| y items IHitems]; constructor.
    + apply IH.
    + exact IHitems.
Qed.

Lemma Simple_induction (P : Simple -> Prop) :
  (forall b, P (SBytes b)) ->
  (forall items, Forall P items -> P (SList items)) ->
  forall s, P s.
Proof.
  intros Hb Hs. fix IH 1. intros [b | items].
  - apply Hb.
  - apply Hs. induction items as [| y items IHitems]; constructor.
    + apply IH.
    + exact IHitems.
Qed.

Lemma encode_encode_simple (x : Extended) : encode x = encode_simple (simple x).
Proof.
  induction x as [b | n | items IH] using Extended_induction;
    cbn [encode simple encode_simple]; try reflexivity.
  f_equal. induction IH as [| y items Hy _ IHitems]; cbn [flat_map map];
    [reflexivity |]. now rewrite Hy, IHitems.
Qed.

Lemma len_with_prefix (offset : Z) (payload : Bytes) :
  len payload < len (with_prefix offset payload).
Proof.
  unfold with_prefix. destruct (len payload <? 56); cbv zeta;
    rewrite len_cons, ?len_app;
    pose proof (len_nonneg (to_be_bytes (len payload))); lia.
Qed.

Lemma len_encode_bytes (b : Bytes) :
  1 <= len (encode_bytes b) /\ len b <= len (encode_bytes b).
Proof.
  pose proof (len_with_prefix 128 b). pose proof (len_nonneg b).
  unfold encode_bytes.
  destruct b as [| x [| y b']]; try lia.
  destruct (byte_val x <? 128); [| lia].
  rewrite !len_cons. change (len (@nil byte)) with 0. lia.
Qed.

Lemma len_encode_simple_pos (s : Simple) : 1 <= len (encode_simple s).
Proof.
  destruct s as [b | items]; cbn [encode_simple].
  - apply len_encode_bytes.
  - pose proof (len_with_prefix 192 (flat_map encode_simple items)).
    pose proof (len_nonneg (flat_map encode_simple items)). lia.
Qed.

(** A byte string is read back from its encoding. *)
Lemma decode_item_bytes (fuel : nat) (b rest : Bytes) :
  len b < 2 ^ 64 ->
  decode_item (S fuel) (encode_bytes b ++ rest) = Some (SBytes b, rest).
Proof.
  intro Hsize. pose proof (len_nonneg b) as Hnonneg.
  assert (Hprefixed :
    (forall x, b = [x] -> 128 <= byte_val x) ->
    decode_item (S fuel) (with_prefix 128 b ++ rest) = Some (SBytes b, rest)).
  { intro Hsingle.
    destruct (Z.lt_ge_cases (len b) 56) as [Hshort | Hlong].
    - rewrite with_prefix_short by assumption.
      cbn [app decode_item]. cbv zeta.
      rewrite byte_val_byte_of_Z by lia.
      replace (128 + len b <? 128) with false by (symmetry; apply Z.ltb_ge; lia).
      replace (128 + len b <? 184) with true by (symmetry; apply Z.ltb_lt; lia).
      replace (128 + len b - 128) with (len b) by lia.
      rewrite take_app. cbn [obind fst snd].
      destruct b as [| x [| y b']]; try reflexivity.
      specialize (Hsingle x eq_refl).
      replace (byte_val x <? 128) with false
        by (symmetry; apply Z.ltb_ge; lia).
      reflexivity.
    - destruct (with_prefix_long 128 b ltac:(lia)) as (w & Heq & Hw & Htake).
      rewrite Heq. cbn [app decode_item]. cbv zeta.
      rewrite byte_val_byte_of_Z by lia.
      replace (128 + 55 + len w <? 128) with false
        by (symmetry; apply Z.ltb_ge; lia).
      replace (128 + 55 + len w <? 184) with false
        by (symmetry; apply Z.ltb_ge; lia).
      replace (128 + 55 + len w <? 192) with true
        by (symmetry; apply Z.ltb_lt; lia).
      replace (128 + 55 + len w - 183) with (len w) by lia.
      rewrite <- app_assoc, Htake. cbn [obind fst snd].
      rewrite take_app. reflexivity. }
  unfold encode_bytes. destruct b as [| x [| y b']].
  - apply Hprefixed. intros x Hx. discriminate.
  - destruct (Z.ltb_spec (byte_val x) 128) as [Hlow | Hhigh].
    + cbn [app decode_item]. cbv zeta.
      apply Z.ltb_lt in Hlow. now rewrite Hlow.
    + apply Hprefixed. intros x' Hx'. injection Hx' as <-. lia.
  - apply Hprefixed. intros x' Hx'. discriminate.
Qed.

(** A list is read back from its prefix and the decoding of its payload. *)
Lemma decode_item_list (fuel : nat) (payload rest : Bytes) :
  len payload < 2 ^ 64 ->
  decode_item (S fuel) (with_prefix 192 payload ++ rest)
  = obind (decode_items fuel payload) (fun items => Some (SList items, rest)).
Proof.
  intro Hsize. pose proof (len_nonneg payload) as Hnonneg.
  destruct (Z.lt_ge_cases (len payload) 56) as [Hshort | Hlong].
  - rewrite with_prefix_short by assumption.
    cbn [app decode_item]. cbv zeta.
    rewrite byte_val_byte_of_Z by lia.
    replace (192 + len payload <? 128) with false
      by (symmetry; apply Z.ltb_ge; lia).
    replace (192 + len payload <? 184) with false
      by (symmetry; apply Z.ltb_ge; lia).
    replace (192 + len payload <? 192) with false
      by (symmetry; apply Z.ltb_ge; lia).
    replace (192 + len payload <? 248) with true
      by (symmetry; apply Z.ltb_lt; lia).
    replace (192 + len payload - 192) with (len payload) by lia.
    rewrite take_app. reflexivity.
  - destruct (with_prefix_long 192 payload ltac:(lia))
      as (w & Heq & Hw & Htake).
    rewrite Heq. cbn [app decode_item]. cbv zeta.
    rewrite byte_val_byte_of_Z by lia.
    replace (192 + 55 + len w <? 128) with false
      by (symmetry; apply Z.ltb_ge; lia).
    replace (192 + 55 + len w <? 184) with false
      by (symmetry; apply Z.ltb_ge; lia).
    replace (192 + 55 + len w <? 192) with false
      by (symmetry; apply Z.ltb_ge; lia).
    replace (192 + 55 + len w <? 248) with false
      by (symmetry; apply Z.ltb_ge; lia).
    replace (192 + 55 + len w - 247) with (len w) by lia.
    rewrite <- app_assoc, Htake. cbn [obind fst snd].
    rewrite take_app. reflexivity.
Qed.

Lemma decode_items_encode (items : list Simple) :
  Forall decodes_back items ->
  forall fuel : nat,
    len (flat_map encode_simple items) < 2 ^ 64 ->
    2 * len (flat_map encode_simple items) + 1 <= Z.of_nat fuel ->
    decode_items fuel (flat_map encode_simple items) = Some items.
Proof.
  induction 1 as [| s items Hs _ IH]; intros fuel Hsize Hfuel.
  - destruct fuel as [| fuel]; [| reflexivity].
    unfold len in Hfuel. cbn [flat_map List.length] in Hfuel. lia.
  - cbn [flat_map] in *. rewrite len_app in Hsize, Hfuel.
    pose proof (len_encode_simple_pos s) as Hpos.
    pose proof (len_nonneg (flat_map encode_simple items)) as Hrest.
    destruct fuel as [| fuel]; [lia |].
    rewrite Nat2Z.inj_succ in Hfuel.
    cbn [decode_items].
    destruct (encode_simple s ++ flat_map encode_simple items)
      as [| c tail] eqn:Hcons.
    { apply (f_equal len) in Hcons. rewrite len_app in Hcons.
      change (len (@nil byte)) with 0 in Hcons. lia. }
    rewrite <- Hcons.
    rewrite (Hs fuel (flat_map encode_simple items)) by lia.
    cbn [obind fst snd]. rewrite IH by lia. reflexivity.
Qed.

Lemma decode_item_encode_simple (s : Simple) : decodes_back s.
Proof.
  induction s as [b | items IH] using Simple_induction;
    intros fuel rest Hsize Hfuel; cbn [encode_simple] in *.
  - pose proof (len_encode_bytes b) as [Hpos Hle].
    destruct fuel as [| fuel]; [lia |].
    apply decode_item_bytes. lia.
  - pose proof (len_with_prefix 192 (flat_map encode_simple items)) as Hlt.
    pose proof (len_nonneg (flat_map encode_simple items)) as Hnonneg.
    destruct fuel as [| fuel]; [lia |].
    rewrite Nat2Z.inj_succ in Hfuel.
    rewrite decode_item_list by lia.
    rewrite (decode_items_encode items IH) by lia.
    reflexivity.
Qed.

(** Decoding inverts encoding, below the size the length prefix can
    express. *)
Lemma decode_encode_simple (s : Simple) :
  len (encode_simple s) < 2 ^ 64 ->
  decode (encode_simple s) = Some s.
Proof.
  intro Hsize. unfold decode.
  rewrite <- (app_nil_r (encode_simple s)) at 2.
  rewrite decode_item_encode_simple; [reflexivity | assumption |].
  unfold len. lia.
Qed.

Lemma decode_encode (x : Extended) :
  len (encode x) < 2 ^ 64 ->
  decode (encode x) = Some (simple x).
Proof.
  rewrite encode_encode_simple. apply decode_encode_simple.
Qed.

(** ** Reading back what was encoded *)

Lemma read_uint_to_be_bytes (max : option Z) (n : Z) :
  0 <= n ->
  match max with
  | Some m => n <= m
  | None => True
  end ->
  read_uint max (SBytes (to_be_bytes n)) = Some n.
Proof.
  intros Hn Hmax.
  destruct (to_be_bytes_spec n Hn) as (Hval & Hhead & Hzero & _).
  destruct (Z.eq_dec n 0) as [-> | Hne].
  - now rewrite (Hzero eq_refl).
  - destruct Hhead as (d & ds & Heq & Hd); [lia |].
    rewrite Heq in *. cbn [read_uint].
    apply Z.eqb_neq in Hd. rewrite Hd. cbv zeta. rewrite Hval.
    destruct max as [m |]; [| reflexivity].
    apply Z.leb_le in Hmax. now rewrite Hmax.
Qed.

Lemma read_Uint_simple (n : Z) :
  is_Uint n = true -> read_Uint (SBytes (to_be_bytes n)) = Some n.
Proof.
  unfold is_Uint. intro H. apply Z.leb_le in H.
  now apply read_uint_to_be_bytes.
Qed.

Lemma read_U8_simple (n : Z) :
  is_U8 n = true -> read_U8 (SBytes (to_be_bytes n)) = Some n.
Proof.
  unfold is_U8. intro H. apply andb_true_iff in H. destruct H as [H0 H1].
  apply Z.leb_le in H0, H1. now apply read_uint_to_be_bytes.
Qed.

Lemma read_U64_simple (n : Z) :
  is_U64 n = true -> read_U64 (SBytes (to_be_bytes n)) = Some n.
Proof.
  unfold is_U64. intro H. apply andb_true_iff in H. destruct H as [H0 H1].
  apply Z.leb_le in H0, H1. now apply read_uint_to_be_bytes.
Qed.

Lemma read_U256_simple (n : Z) :
  is_U256 n = true -> read_U256 (SBytes (to_be_bytes n)) = Some n.
Proof.
  unfold is_U256. intro H. apply andb_true_iff in H. destruct H as [H0 H1].
  apply Z.leb_le in H0, H1. now apply read_uint_to_be_bytes.
Qed.

Lemma read_Bytes_simple (b : Bytes) : read_Bytes (SBytes b) = Some b.
Proof. reflexivity. Qed.

Lemma read_Address_simple (b : Bytes) :
  is_Address b = true -> read_fixed 20 (SBytes b) = Some b.
Proof.
  unfold is_Address, read_fixed. intro H.
  cbn [read_Bytes obind]. now rewrite H.
Qed.

Lemma read_Bytes32_simple (b : Bytes) :
  is_Bytes32 b = true -> read_fixed 32 (SBytes b) = Some b.
Proof.
  unfold is_Bytes32, read_fixed. intro H.
  cbn [read_Bytes obind]. now rewrite H.
Qed.

Lemma read_to_simple (b : Bytes) :
  is_Bytes0_or_Address b = true -> read_to (SBytes b) = Some b.
Proof.
  unfold is_Bytes0_or_Address, read_to. intro H.
  cbn [read_Bytes obind]. now rewrite H.
Qed.

(** A sequence of records is read back element by element. *)
Lemma read_tuple_simple {A : Type}
  (to_extended : A -> Extended) (read : Simple -> option A)
  (ok : A -> bool) (l : list A) :
  (forall a, ok a = true -> read (simple (to_extended a)) = Some a) ->
  forallb ok l = true ->
  read_tuple read (simple (ESeq (map to_extended l))) = Some l.
Proof.
  intros Hread Hall. cbn [simple read_tuple].
  induction l as [| a l IH]; [reflexivity |].
  cbn [forallb] in Hall. apply andb_true_iff in Hall.
  destruct Hall as [Ha Hl].
  cbn [map traverse]. rewrite (Hread a Ha), (IH Hl). reflexivity.
Qed.

Ltac split_well_formed H :=
  repeat match type of H with
         | (_ && _) = true =>
             apply andb_true_iff in H;
             let H' := fresh "Hwf" in destruct H as [H H']
         end.

(** A sequence of 32-byte strings: the slots of an access entry and the
    versioned hashes of a blob transaction. *)
Lemma read_versioned_hashes_simple (l : list Bytes) :
  forallb is_Bytes32 l = true ->
  read_tuple (read_fixed 32) (SList (map simple (map EBytes l))) = Some l.
Proof.
  intro H.
  exact (read_tuple_simple EBytes (read_fixed 32) is_Bytes32 l
           read_Bytes32_simple H).
Qed.

Lemma read_Access_simple (a : Access.t) :
  well_formed_Access a = true ->
  read_Access (simple (Access.to_extended a)) = Some a.
Proof.
  destruct a as [account slots].
  unfold well_formed_Access, Access.to_extended.
  cbn [Access.account Access.slots]. intro H.
  split_well_formed H.
  cbn [simple map read_Access].
  rewrite (read_Address_simple _ H). cbn [obind].
  rewrite (read_versioned_hashes_simple _ Hwf).
  reflexivity.
Qed.

Lemma read_Authorization_simple (a : Authorization.t) :
  well_formed_Authorization a = true ->
  read_Authorization (simple (Authorization.to_extended a)) = Some a.
Proof.
  destruct a as [chain_id address nonce y_parity r s].
  unfold well_formed_Authorization, Authorization.to_extended.
  cbn [Authorization.chain_id Authorization.address Authorization.nonce
       Authorization.y_parity Authorization.r Authorization.s].
  intro H. split_well_formed H.
  cbn [simple map read_Authorization].
  repeat first
    [ rewrite read_U256_simple by assumption
    | rewrite read_U64_simple by assumption
    | rewrite read_U8_simple by assumption
    | rewrite read_Address_simple by assumption
    | progress cbn [obind] ].
  reflexivity.
Qed.

Lemma read_access_list_simple (l : list Access.t) :
  forallb well_formed_Access l = true ->
  read_tuple read_Access (simple (access_list_ext l)) = Some l.
Proof.
  apply read_tuple_simple. exact read_Access_simple.
Qed.

Lemma read_authorizations_simple (l : list Authorization.t) :
  forallb well_formed_Authorization l = true ->
  read_tuple read_Authorization (simple (authorizations_ext l)) = Some l.
Proof.
  apply read_tuple_simple. exact read_Authorization_simple.
Qed.

Ltac read_fields :=
  repeat first
    [ rewrite read_U256_simple by assumption
    | rewrite read_U64_simple by assumption
    | rewrite read_Uint_simple by assumption
    | rewrite read_Address_simple by assumption
    | rewrite read_to_simple by assumption
    | rewrite read_Bytes_simple
    | rewrite read_access_list_simple by assumption
    | rewrite read_authorizations_simple by assumption
    | rewrite read_versioned_hashes_simple by assumption
    | progress cbn [obind] ].

Lemma read_AccessListTransaction_simple (t : AccessListTransaction.t) :
  well_formed_AccessListTransaction t = true ->
  read_AccessListTransaction (simple (AccessListTransaction.to_extended t))
  = Some t.
Proof.
  destruct t. unfold well_formed_AccessListTransaction, AccessListTransaction.to_extended.
  cbn [AccessListTransaction.chain_id AccessListTransaction.nonce
       AccessListTransaction.gas_price AccessListTransaction.gas
       AccessListTransaction.to AccessListTransaction.value
       AccessListTransaction.data AccessListTransaction.access_list
       AccessListTransaction.y_parity AccessListTransaction.r
       AccessListTransaction.s].
  intro H. split_well_formed H.
  cbn [simple map read_AccessListTransaction]. read_fields. reflexivity.
Qed.

Lemma read_FeeMarketTransaction_simple (t : FeeMarketTransaction.t) :
  well_formed_FeeMarketTransaction t = true ->
  read_FeeMarketTransaction (simple (FeeMarketTransaction.to_extended t))
  = Some t.
Proof.
  destruct t. unfold well_formed_FeeMarketTransaction, FeeMarketTransaction.to_extended.
  cbn [FeeMarketTransaction.chain_id FeeMarketTransaction.nonce
       FeeMarketTransaction.max_priority_fee_per_gas
       FeeMarketTransaction.max_fee_per_gas FeeMarketTransaction.gas
       FeeMarketTransaction.to FeeMarketTransaction.value
       FeeMarketTransaction.data FeeMarketTransaction.access_list
       FeeMarketTransaction.y_parity FeeMarketTransaction.r
       FeeMarketTransaction.s].
  intro H. split_well_formed H.
  cbn [simple map read_FeeMarketTransaction]. read_fields. reflexivity.
Qed.

Lemma read_BlobTransaction_simple (t : BlobTransaction.t) :
  well_formed_BlobTransaction t = true ->
  read_BlobTransaction (simple (BlobTransaction.to_extended t)) = Some t.
Proof.
  destruct t. unfold well_formed_BlobTransaction, BlobTransaction.to_extended.
  cbn [BlobTransaction.chain_id BlobTransaction.nonce
       BlobTransaction.max_priority_fee_per_gas
       BlobTransaction.max_fee_per_gas BlobTransaction.gas
       BlobTransaction.to BlobTransaction.value BlobTransaction.data
       BlobTransaction.access_list BlobTransaction.max_fee_per_blob_gas
       BlobTransaction.blob_versioned_hashes BlobTransaction.y_parity
       BlobTransaction.r BlobTransaction.s].
  intro H. split_well_formed H.
  cbn [simple map read_BlobTransaction]. read_fields. reflexivity.
Qed.

Lemma read_SetCodeTransaction_simple (t : SetCodeTransaction.t) :
  well_formed_SetCodeTransaction t = true ->
  read_SetCodeTransaction (simple (SetCodeTransaction.to_extended t))
  = Some t.
Proof.
  destruct t. unfold well_formed_SetCodeTransaction, SetCodeTransaction.to_extended.
  cbn [SetCodeTransaction.chain_id SetCodeTransaction.nonce
       SetCodeTransaction.max_priority_fee_per_gas
       SetCodeTransaction.max_fee_per_gas SetCodeTransaction.gas
       SetCodeTransaction.to SetCodeTransaction.value
       SetCodeTransaction.data SetCodeTransaction.access_list
       SetCodeTransaction.authorizations SetCodeTransaction.y_parity
       SetCodeTransaction.r SetCodeTransaction.s].
  intro H. split_well_formed H.
  cbn [simple map read_SetCodeTransaction]. read_fields. reflexivity.
Qed.

(** Decoding at a class what the encoder made of a record of that class. *)
Lemma decode_to_encode {A : Type}
  (to_extended : A -> Extended) (read : Simple -> option A) (a : A) :
  len (encode (to_extended a)) < 2 ^ 64 ->
  read (simple (to_extended a)) = Some a ->
  decode_to read (encode (to_extended a)) = Ok a.
Proof.
  intros Hsize Hread. unfold decode_to.
  rewrite (decode_encode _ Hsize). cbn [obind]. now rewrite Hread.
Qed.

End ReferenceCodec.

(** C7.  Decoding an encoded transaction gives the transaction back, for
    every well-formed transaction of each of the five classes: through the
    typed envelope and the RLP codec for the four typed ones, by passthrough
    for a legacy one.  Well-formed means that every field meets the
    invariant of its type; the codec is the reference codec, whose length
    prefix carries at most eight bytes of length, so the encoding must not
    exceed 2^64 bytes, which no byte string in memory does. *)
Theorem decode_encode_transaction_well_formed (tx : Transaction) :
  well_formed tx = true ->
  encoded_len (encode_transaction (rlp := Reference.rlp) tx) <= 2 ^ 64 ->
  decode_transaction (rlp := Reference.rlp)
    (encode_transaction (rlp := Reference.rlp) tx)
  = Ok tx.
Proof.
  intros Hwf Hsize. apply decode_encode_transaction.
  destruct tx as [t | t | t | t | t];
    cbn [rlp_round_trips well_formed encode_transaction encoded_len app]
      in *;
    [exact I | | | |];
    rewrite len_cons in Hsize;
    apply ReferenceCodec.decode_to_encode; try (unfold rlp_encode, Reference.rlp in Hsize; lia).
  - now apply ReferenceCodec.read_AccessListTransaction_simple.
  - now apply ReferenceCodec.read_FeeMarketTransaction_simple.
  - now apply ReferenceCodec.read_BlobTransaction_simple.
  - now apply ReferenceCodec.read_SetCodeTransaction_simple.
Qed.

Lemma decode_encode_transaction_well_formed_witness :
  decode_transaction (rlp := Reference.rlp)
    (encode_transaction (rlp := Reference.rlp) (SetCode Sample.set_code_tx))
  = Ok (SetCode Sample.set_code_tx).
Proof.
  apply (decode_encode_transaction_well_formed (SetCode Sample.set_code_tx)).
  - vm_compute. reflexivity.
  - vm_compute. discriminate.
Defined.
